(* ===== verification/_CoqProject ===== *)
-Q . S2P
Prelude.v
Router.v
History.v
Lines.v
Lcs.v
DiffEngine.v
Page.v
Session.v
