(* ===== verification/Prelude.v ===== *)
(** * A verification development of the yiqun233/tools single-page application

    ** The program

    The repository is a browser application of small developer tools built
    with Vue 3 and vue-router 4.  Its only source file under [src/] is
    [src/src/main.js]: it imports the root component [App] and seven views
    ([Home], [JsonFormatter], [Base64Tool], [UuidGenerator], [TextDiff],
    [BookmarkManager], [ImageOCR]), declares a table [routes] that maps one
    URL path to each view, builds a router with [createRouter] over an HTML5
    history ([createWebHistory()]), creates the application with
    [createApp(App)], installs the router with [app.use(router)] and mounts
    it on [#app].  The views themselves ([src/views/*.vue]) are not part of
    the snapshot; the specification ([spec.md]) describes one of them, the
    text diff view, as the component of interest: a line-based longest
    common subsequence (LCS) diff.

    The parts interact in one direction only: the browser location is
    resolved by the router against [routes]; the matched view is rendered
    by the root component; the [TextDiff] view calls the diff engine on two
    text buffers and renders its segments and counts.

    ** The library

    - [Prelude] (this file): the notation scope [tools_scope], the hint
      database [tools], the tactics [destruct_eqb] and [tools_simpl], and the
      generic lemmas on lists ([take], [rev], [seq], [sublist]) and on
      strings that the components share.
    - [Router]: [src/src/main.js] itself.  [view_component] is the import list
      (lines 3-10), [route_record] and [routes] the route table (lines
      12-20), [createWebHistory], [createRouter] and [router] lines 22-25,
      [createApp], [app_use], [app_mount] and [main_js] lines 27-29.  The
      behaviour of vue-router and Vue that the file relies on is modelled
      after those libraries' documented contract, for static paths only:
      a route matches a location when the location's path (the part before
      the first [?] or [#], as vue-router's [parseURL] cuts it) equals the
      route's path up to ASCII case (option [sensitive: false]) and up to
      one trailing slash (option [strict: false]).  The application's
      lifecycle is explicit state passing on [app_state] ([app_use],
      [app_mount], and [app_event_step] for navigation by link ([Push]) or
      by the browser's back/forward buttons ([PopState])), with the
      reachable states as the inductive relation [reachable].  [app_mount]
      records whether the root's render could resolve [<router-view>]
      (only a router installed before the mount has registered
      [RouterView]), so the order of lines 28 and 29 matters; its
      invariant ([app_inv]: the rendered view is the resolution of the
      current location) is proved for every reachable state by rule
      induction.
    - [History]: the session history of [createWebHistory()] under the
      router: a [browser] is the application with the tab's entries and the
      current index; [hist_step] plays a [<router-link>] click
      ([router.push], refused with [NavigationDuplicated] when
      [isSameRouteLocation] holds, otherwise committed with
      [routerHistory.push], which drops the entries ahead) or the Back and
      Forward buttons ([popstate], on which the router navigates to the
      entry's location).  The query normalisation and hash decoding that
      vue-router applies before comparing are section variables.
    - [Session]: the composition of [History] and [Page]: the diff page in a
      browser tab, where links and Back/Forward go through the session
      history and the router, [<router-view>] then keeps or recreates the
      [TextDiff] instance ([view_after]), and edits go to the view.
    - [Lines]: how the diff view turns a text buffer into lines: JavaScript's
      [split('\n')] ([split_on_nl]) followed by the removal of the empty
      piece a final line break leaves ([splitLines]), with the round trips
      to [join('\n')].
    - [Lcs]: the reference theory, generic over a line type with decidable
      equality: edit scripts ([edit]) and their projections, the LCS length
      [lcs_len] as a structural recursion on reversed prefixes, its
      characterisation as the length of a longest common subsequence
      ([lcs_len_spec]), the reference backtracking [bt], and the abstract
      contract of a line diff as a type class [LineDiff] with the laws the
      text diff view relies on; client lemmas are proved against the class.
    - [DiffEngine]: the diff engine of the spec: [DiffSegment] and
      [DiffResult] records, the DP table [lcs_table] built row by row
      ([fill_row], [build_rows]) with [table[i][j]] the LCS length of the
      prefixes, the backtracking [backtrack] over the table from
      [(m, n)] to [(0, 0)] with the tie broken toward deletion, the reversal
      to display order, the summary counts, and the typed error
      [InvalidInputKind] for non-text inputs ([computeDiffChecked]).
    - [Page]: the composition of the two: the application state of
      [main.js] with the state of the [TextDiff] view instance (its two text
      areas and what it shows), which [<router-view>] keeps across
      navigations that stay on the view and recreates fresh when the view
      appears again ([view_after]); [page_step] plays one user event
      (navigation, an edit of either text area, the compare control) and
      [start l] is the page right after [main.js] ran at location [l].

    ** What the theorems show

    The properties of the program are stated in [Page] (the diff the running
    page shows) and in [Router] (what [main.js] renders): they quantify over
    every browser location and every sequence of user events, and are proved
    from the component theorems of [Lines], [Lcs] and [DiffEngine], which
    are stated on the engine alone.

    - Router: every route path resolves to its view from any ASCII
      letter-case variant of it ([string_case_eq], defined apart from the
      matcher's case folding), with a trailing slash, with a query or a
      fragment; every tool has a
      route; at most one route matches any location (so vue-router's ranking
      of matchers cannot change the outcome); unknown paths render nothing;
      running [main.js] yields a mounted application that renders the view of
      the browser location (mounting before installing the router would
      show nothing), and the rendering invariant holds in every reachable
      state.
    - History: in every reachable browser state the index is an entry and
      the route is that entry's location; Back after a committed link
      returns to the previous view, Forward after Back restores the state
      exactly, a link drops the entries ahead; a link fails with
      [NavigationDuplicated] exactly when it targets the current record
      with the same query and hash, so a second click on a matched link
      changes nothing, while links to unmatched locations always add an
      entry.
    - Lines: [join('\n')] inverts [split('\n')] and conversely on lines
      without line breaks; a text is its lines joined plus its final line
      break.
    - Lcs: [lcs_len] is the length of a longest common subsequence; the
      reference backtracking reconstructs both documents, keeps exactly
      [lcs_len] lines and changes the fewest lines of any edit script;
      insertions precede deletions inside a changed block.
    - DiffEngine: the table holds [lcs_len] of the prefixes in every cell
      (equivalence of the DP with the reference recursion); the table-based
      backtracking equals the reference one and needs [m + n] steps (its fuel
      argument is that bound, and any larger fuel gives the same result);
      the segments reconstruct both documents' lines, their indices point at
      their text, the counts are [m - L], [n - L] and [L] for the LCS length
      [L], the diff is minimal, identical inputs give no change, the edge
      cases and the worked examples of the spec hold, and non-text inputs
      give [InvalidInputKind].  [computeDiff] is an instance of [LineDiff].
    - Page: in every reachable page the view exists exactly when the router
      renders [TextDiff] and whatever it shows is the diff of its two text
      areas; the shown diff reconstructs both texts, keeps a longest common
      subsequence, has the LCS counts, is minimal, refines the reference
      edit script and lists insertions before deletions in a changed block;
      its indices are in order and in bounds and the
      walk that built it terminates; leaving the view and coming back resets
      it; a final line break is invisible to the diff; swapping the two
      texts swaps the added and removed counts.
    - Session: in every state of a tab the history and page invariants
      hold; one link to [/text-diff] reaches the diff page from anywhere; a
      link that stays on the diff route keeps the view's texts, and Back
      after leaving the diff page shows it fresh; the tab's history has at
      most one entry plus one per link clicked.

    ** Bounds and fuel

    The only fuel is that of [backtrack]: every step decreases [i + j] by at
    least one, so [m + n] steps reach [(0, 0)]; [backtrack_fuel] proves
    that any fuel at least [i + j] gives the same result.  Line counts are
    unbounded naturals: JavaScript arrays of lines never approach 2^53.

    ** Not modelled

    The views other than the text diff ([Home], [JsonFormatter],
    [Base64Tool], [UuidGenerator], [BookmarkManager], [ImageOCR]) and the root
    component [App]: their sources are not in the snapshot and the
    specification declares them out of scope without describing them.  The
    root is assumed to contain a plain [<router-view>] (no [<keep-alive>],
    no [:key]), and a fresh [TextDiff] instance is assumed to start with
    empty text areas and nothing shown ([fresh_view]): the specification
    does not describe the initial inputs.
    Rendering and the DOM are not modelled; the browser's history is
    modelled as the list of the tab's entries, starting at the application
    (Back from the first entry does nothing: an assumption about the tab,
    not behaviour of the program), without [history.state],
    scroll positions or reloads.  vue-router's [stringifyQuery (parseQuery
    _)] and the percent-decoding of hashes are parameters of [History]
    (the theorems hold for any of them).  Case folding is modelled for ASCII
    letters only.

    Why the partly modelled parts stop where they do: [src/src/main.js] is
    the only source under [src/], and every line of it is a definition of
    [Router].  The [TextDiff] view and the diff engine are modelled from the
    specification, which fixes their data, algorithm, errors and handlers
    but not their markup or styling; the root component [App] is known only
    through the [<router-view>] the router needs.  vue-router and Vue are
    libraries the file calls: what [main.js] relies on (static matching,
    installation, mounting, push, popstate, duplicate detection,
    [<router-view>] instance reuse) is modelled, and the features it does
    not use (dynamic segments, guards, redirects, nested routes, scroll
    behaviour, [router.replace]) are left out. *)

From stdpp Require Export base list strings.
From Stdlib Require Export Ascii Lia.

Declare Scope tools_scope.
Delimit Scope tools_scope with tools.
Open Scope tools_scope.

(** JavaScript's strict equality on strings, as the code compares lines. *)
Notation "x ==? y" := (String.eqb x y) (at level 70, no associativity) : tools_scope.

Create HintDb tools discriminated.
Create Rewrite HintDb tools_rw.

(** Case analysis on a string comparison of the goal or a hypothesis. *)
Ltac destruct_eqb :=
  match goal with
  | |- context [String.eqb ?x ?y] => destruct (String.eqb_spec x y); subst
  | H : context [String.eqb ?x ?y] |- _ => destruct (String.eqb_spec x y); subst
  end.

Ltac tools_simpl := repeat (simpl in *; try destruct_eqb; try discriminate); auto with tools.

(** ** Lists *)

Section ListFacts.
Context {A : Type}.

Lemma rev_take_S (l : list A) (i : nat) (d : A) :
  i < length l -> rev (take (S i) l) = nth i l d :: rev (take i l).
Proof.
  intros Hi. destruct (lookup_lt_is_Some_2 l i Hi) as [x Hx].
  rewrite (take_S_r l i x Hx), rev_unit, nth_lookup, Hx. reflexivity.
Qed.

Lemma lookup_nth (l : list A) (i : nat) (d : A) :
  i < length l -> l !! i = Some (nth i l d).
Proof.
  intros Hi. destruct (lookup_lt_is_Some_2 l i Hi) as [x Hx]. by rewrite nth_lookup, Hx.
Qed.

Lemma nth_map_seq {B} (f : nat -> B) (k n j : nat) (d : B) :
  j < n -> nth j (map f (seq k n)) d = f (k + j).
Proof.
  intros Hj. rewrite nth_lookup, list_lookup_fmap, lookup_seq_lt by done.
  reflexivity.
Qed.

Lemma rev_app_cons2 (l1 l2 : list A) (x y : A) :
  rev (l1 ++ x :: y :: l2) = rev l2 ++ y :: x :: rev l1.
Proof. rewrite rev_app_distr. simpl. by rewrite <- !app_assoc. Qed.

Lemma sublist_rev (l1 l2 : list A) :
  l1 `sublist_of` l2 -> rev l1 `sublist_of` rev l2.
Proof.
  induction 1 as [|x l1 l2 _ IH|x l1 l2 _ IH]; simpl.
  - constructor.
  - by apply sublist_app.
  - by apply sublist_inserts_r.
Qed.

Lemma sublist_rev_iff (l1 l2 : list A) :
  rev l1 `sublist_of` rev l2 <-> l1 `sublist_of` l2.
Proof.
  split; [|apply sublist_rev].
  intros H. rewrite <- (rev_involutive l1), <- (rev_involutive l2).
  by apply sublist_rev.
Qed.

Lemma sublist_cons_drop (x : A) (l k : list A) :
  x :: l `sublist_of` k -> l `sublist_of` k.
Proof. intros H. apply sublist_cons_l in H as (k1 & k2 & -> & H). by apply sublist_inserts_l, sublist_cons_r; left. Qed.
(** Keeping the first [S p] entries and appending one: the entry at [p] is
    kept and the new one comes right after it. *)
Lemma length_take_S_snoc (l : list A) (p : nat) (x : A) :
  p < length l -> length (take (S p) l ++ [x]) = S (S p).
Proof. intros Hp. rewrite length_app, length_take. cbn [length]. lia. Qed.

Lemma nth_take_S_snoc_last (l : list A) (p : nat) (x d : A) :
  p < length l -> nth (S p) (take (S p) l ++ [x]) d = x.
Proof.
  intros Hp. rewrite app_nth2; rewrite length_take; [|lia].
  by replace (S p - min (S p) (length l)) with 0 by lia.
Qed.

Lemma nth_take_S_snoc_prev (l : list A) (p : nat) (x d : A) :
  p < length l -> nth p (take (S p) l ++ [x]) d = nth p l d.
Proof.
  intros Hp. rewrite app_nth1 by (rewrite length_take; lia).
  by rewrite !nth_lookup, lookup_take_lt by lia.
Qed.

End ListFacts.

#[export] Hint Resolve sublist_nil_l sublist_cons_drop sublist_rev : tools.

Lemma omap_rev {A B} (f : A -> option B) (l : list A) : omap f (rev l) = rev (omap f l).
Proof.
  induction l as [|x l IH]; [done|]. cbn [rev]. rewrite omap_app, IH. cbn.
  destruct (f x); cbn; by rewrite ?app_nil_r.
Qed.

#[export] Hint Constructors sublist : tools.

(** ** Strings *)

(** [String.append] is [simpl never] under stdpp: its two equations. *)
Lemma string_app_nil_l (s : string) : String.append "" s = s.
Proof. reflexivity. Qed.

Lemma string_app_cons (c : ascii) (s t : string) :
  String.append (String c s) t = String c (String.append s t).
Proof. reflexivity. Qed.

#[export] Hint Rewrite string_app_nil_l string_app_cons : tools_rw.

Lemma string_app_nil_r (s : string) : String.append s "" = s.
Proof. induction s as [|c s IH]; autorewrite with tools_rw; congruence. Qed.

#[export] Hint Rewrite string_app_nil_r : tools_rw.

Lemma string_eqb_decide (x y : string) : (x ==? y) = bool_decide (x = y).
Proof. destruct (String.eqb_spec x y); case_bool_decide; congruence. Qed.
