(* ===== verification/Router.v ===== *)
(** * Router: the application shell of [src/src/main.js]

    The imports (lines 3-10), the route table (lines 12-20), the router
    (lines 22-25) and the application's creation, plugin installation and
    mounting (lines 27-29).  The libraries the file calls are modelled after
    their documented behaviour for what the file uses: vue-router's
    matching of static paths (case-insensitive, optional trailing slash,
    query and fragment cut off by [parseURL]) and its initial navigation on
    installation; Vue's [use] (a plugin is installed once) and [mount] (an
    application is mounted once, and its root resolves [<router-view>] only
    if the router was installed first).  The lifecycle of the application is a
    step function on [app_state] with a reachability predicate. *)

From S2P Require Import Prelude.

Module Router.

(** ** The source: imports and route table *)

(** The components [main.js] imports: the root [App] and the seven views. *)
Inductive view_component :=
| App | Home | JsonFormatter | Base64Tool | UuidGenerator | TextDiff
| BookmarkManager | ImageOCR.

#[export] Instance view_component_eq_dec : EqDecision view_component.
Proof. solve_decision. Defined.

(** A route record [{ path, component }]. *)
Record route_record := { path : string; component : view_component }.

#[export] Instance route_record_eq_dec : EqDecision route_record.
Proof. solve_decision. Defined.

Definition routes : list route_record := [
  {| path := "/"; component := Home |};
  {| path := "/json-formatter"; component := JsonFormatter |};
  {| path := "/base64"; component := Base64Tool |};
  {| path := "/uuid"; component := UuidGenerator |};
  {| path := "/text-diff"; component := TextDiff |};
  {| path := "/bookmarks"; component := BookmarkManager |};
  {| path := "/ocr"; component := ImageOCR |}
].

(** ** vue-router: locations and the matcher of static paths *)

(** ASCII case folding, as the [i] flag of the matcher's regular expression
    applies it to letters. *)
Definition ascii_lower (c : ascii) : ascii :=
  let n := nat_of_ascii c in
  if (65 <=? n) && (n <=? 90) then ascii_of_nat (n + 32) else c.

Fixpoint lower (s : string) : string :=
  match s with
  | EmptyString => EmptyString
  | String c s' => String (ascii_lower c) (lower s')
  end.

(** [parseURL]: the path is what precedes the first [?] or [#]. *)
Fixpoint url_path (s : string) : string :=
  match s with
  | EmptyString => EmptyString
  | String c s' =>
      if bool_decide (c = "?"%char) || bool_decide (c = "#"%char) then EmptyString
      else String c (url_path s')
  end.

(** The strings a static route path [rp] accepts once lowered: the regular
    expression [^rp/?$] with flag [i]. *)
Definition forms (rp : string) : list string := [lower rp; String.append (lower rp) "/"].

Definition path_matches (rp p : string) : bool := bool_decide (lower p ∈ forms rp).

(** ** The router of lines 22-25 *)

(** The HTML5 history; [createWebHistory()] without a base normalises the
    base to the empty string (no [<base>] element). *)
Record web_history := { base : string }.

Definition createWebHistory (b : string) : web_history := {| base := b |}.

(** A browser location split as [window.location] exposes it. *)
Record browser_location := { pathname : string; search : string; hash : string }.

(** The history's current location: [pathname] with the base stripped, then
    the query and the fragment. *)
Definition history_location (h : web_history) (l : browser_location) : string :=
  let p := pathname l in
  let b := base h in
  let stripped :=
    if bool_decide (b = "") then p
    else if String.prefix (lower b) (lower p)
         then match String.substring (String.length b) (String.length p) p with
              | "" => "/" | q => q end
         else p in
  String.append stripped (String.append (search l) (hash l)).

Record router_options := { history : web_history; options_routes : list route_record }.

Record vue_router := { router_history : web_history; matcher : list route_record }.

Definition createRouter (o : router_options) : vue_router :=
  {| router_history := history o; matcher := options_routes o |}.

Definition router : vue_router :=
  createRouter {| history := createWebHistory ""; options_routes := routes |}.

(** [router.resolve(location).matched[0]]: the first record whose matcher
    accepts the location's path. *)
Definition router_resolve (r : vue_router) (loc : string) : option route_record :=
  List.find (fun rr => path_matches (path rr) (url_path loc)) (matcher r).

(** ** Vue: the application of lines 27-29 *)

Record app_state := {
  app_root : view_component;
  app_router : option vue_router;   (** the installed router plugin *)
  app_started : bool;                  (** the router made its first navigation *)
  app_location : string;               (** [currentRoute.fullPath] *)
  app_matched : option route_record;   (** [currentRoute.matched[0]] *)
  app_mounted : bool;
  app_outlet : bool                    (** the root's render resolved [<router-view>] *)
}.

(** [createApp(root)]: nothing installed, the router's [START_LOCATION]. *)
Definition createApp (root : view_component) : app_state :=
  {| app_root := root; app_router := None; app_started := false;
     app_location := "/"; app_matched := None; app_mounted := false; app_outlet := false |}.

(** A confirmed navigation: no guard is registered, so every [push] commits. *)
Definition navigate (r : vue_router) (loc : string) (st : app_state) : app_state :=
  {| app_root := app_root st; app_router := app_router st; app_started := true;
     app_location := loc; app_matched := router_resolve r loc;
     app_mounted := app_mounted st; app_outlet := app_outlet st |}.

(** [app.use(router)]: Vue installs a plugin once; the router's [install]
    starts it by pushing the history's current location. *)
Definition app_use (r : vue_router) (l : browser_location) (st : app_state) : app_state :=
  match app_router st with
  | Some _ => st
  | None =>
      let st1 := {| app_root := app_root st; app_router := Some r;
                    app_started := app_started st; app_location := app_location st;
                    app_matched := app_matched st; app_mounted := app_mounted st;
                    app_outlet := app_outlet st |} in
      if app_started st then st1
      else navigate r (history_location (router_history r) l) st1
  end.

(** [app.mount('#app')]: a second mount is refused with a warning.  The
    first mount renders the root, whose template resolves [<router-view>]
    among the globally registered components: only a router installed
    before the mount has registered [RouterView] (a later [app.use] does not
    re-render the root, which depends on no reactive state of the router). *)
Definition app_mount (st : app_state) : app_state :=
  if app_mounted st then st
  else {| app_root := app_root st; app_router := app_router st;
          app_started := app_started st; app_location := app_location st;
          app_matched := app_matched st; app_mounted := true;
          app_outlet := match app_router st with Some _ => true | None => false end |}.

(** The whole module body run in a browser at location [l]. *)
Definition main_js (l : browser_location) : app_state :=
  let app := createApp App in
  let app := app_use router l app in
  app_mount app.

(** The root is mounted with a working [<router-view>]. *)
Definition outlet_ready (st : app_state) : bool := app_mounted st && app_outlet st.

(** What [<router-view>] in the mounted root shows. *)
Definition rendered_view (st : app_state) : option view_component :=
  if outlet_ready st then component <$> app_matched st else None.

(** Later events: a [<router-link>] click or [router.push], and the
    browser's back and forward buttons ([popstate]).  Both are ignored
    until the router has started. *)
Inductive app_event := Push (loc : string) | PopState (loc : string).

Definition app_event_step (e : app_event) (st : app_state) : app_state :=
  match app_router st with
  | Some r =>
      if app_started st then
        match e with Push loc | PopState loc => navigate r loc st end
      else st
  | None => st
  end.

Inductive reachable (l : browser_location) : app_state -> Prop :=
| reach_main : reachable l (main_js l)
| reach_event st e : reachable l st -> reachable l (app_event_step e st).

(** ** Well-formedness of a route table *)

(** No string is accepted by two records: the accepted forms of all paths
    are pairwise distinct. *)
Definition route_table_wf (tbl : list route_record) : Prop :=
  NoDup (tbl ≫= fun rr => forms (path rr)).

#[export] Instance route_table_wf_dec tbl : Decision (route_table_wf tbl).
Proof. unfold route_table_wf. apply _. Defined.



(** The invariant of the application after [main.js] has run: the router is
    installed and started, the application is mounted, and the matched
    record is the resolution of the current location. *)
Definition app_inv (st : app_state) : Prop :=
  app_router st = Some router /\ app_started st = true /\ outlet_ready st = true /\
  app_matched st = router_resolve router (app_location st).

(** ** Lemmas *)



Lemma wf_forms_unique (tbl : list route_record) (r1 r2 : route_record) (z : string) :
  route_table_wf tbl -> r1 ∈ tbl -> r2 ∈ tbl ->
  z ∈ forms (path r1) -> z ∈ forms (path r2) -> r1 = r2.
Proof.
  unfold route_table_wf. induction tbl as [|a tbl IH]; intros Hnd H1 H2 Hz1 Hz2.
  { by apply not_elem_of_nil in H1. }
  rewrite bind_cons in Hnd. apply NoDup_app in Hnd as (_ & Hdisj & Hnd).
  apply elem_of_cons in H1, H2.
  destruct H1 as [->|H1], H2 as [->|H2]; [done| | |by apply IH].
  - exfalso. apply (Hdisj z Hz1), list_elem_of_bind. eauto.
  - exfalso. apply (Hdisj z Hz2), list_elem_of_bind. eauto.
Qed.

Lemma path_matches_forms (rp p : string) :
  path_matches rp p = true <-> lower p ∈ forms rp.
Proof. unfold path_matches. by rewrite bool_decide_eq_true. Qed.

Lemma find_unique {A} (f : A -> bool) (l : list A) (x : A) :
  (forall y, y ∈ l -> f y = true -> y = x) -> x ∈ l -> f x = true -> List.find f l = Some x.
Proof.
  intros Huniq Hx Hfx. induction l as [|a l IH]; simpl.
  { by apply not_elem_of_nil in Hx. }
  destruct (f a) eqn:Ha.
  - f_equal. apply Huniq; [left|]; done.
  - apply elem_of_cons in Hx as [->|Hx]; [congruence|].
    apply IH; [|done]. intros y Hy. apply Huniq. by right.
Qed.

Lemma find_elem_of {A} (f : A -> bool) (l : list A) (x : A) :
  List.find f l = Some x -> x ∈ l /\ f x = true.
Proof. intros H. apply List.find_some in H as [H1 H2]. by rewrite list_elem_of_In. Qed.

Lemma routes_wf : route_table_wf routes.
Proof. apply (bool_decide_unpack _). vm_compute. reflexivity. Qed.

Lemma navigate_inv (loc : string) (st : app_state) :
  app_inv st -> app_inv (navigate router loc st).
Proof. intros (Hr & Hs & Hm & _). repeat split; done. Qed.

(** Each record resolves from its own path (checked on the table). *)
Lemma routes_resolve_self : Forall (fun rr => router_resolve router (path rr) = Some rr) routes.
Proof. repeat constructor. Qed.

Lemma app_event_step_inv (e : app_event) (st : app_state) :
  app_inv st -> app_inv (app_event_step e st).
Proof.
  intros Hinv. pose proof Hinv as (Hr & Hs & _).
  unfold app_event_step. rewrite Hr, Hs. destruct e; by apply navigate_inv.
Qed.

Lemma main_js_inv (l : browser_location) : app_inv (main_js l).
Proof. repeat split. Qed.

Lemma app_inv_rendered (st : app_state) :
  app_inv st -> rendered_view st = component <$> router_resolve router (app_location st).
Proof. intros (_ & _ & Hm & Hmat). unfold rendered_view. by rewrite Hm, Hmat. Qed.

(** After a navigation to [loc] the view shown is the one [loc] resolves to. *)
Lemma rendered_after_push (loc : string) (st : app_state) :
  app_inv st -> rendered_view (app_event_step (Push loc) st) = component <$> router_resolve router loc.
Proof.
  intros Hinv. pose proof Hinv as (Hr & Hs & _).
  rewrite (app_inv_rendered _ (app_event_step_inv (Push loc) st Hinv)).
  unfold app_event_step. by rewrite Hr, Hs.
Qed.







#[export] Hint Resolve routes_wf navigate_inv app_event_step_inv main_js_inv : tools.

(** The order of lines 28 and 29 matters: mounting before installing the
    router leaves [<router-view>] unresolved, and nothing is shown at any
    location. *)
Lemma mount_before_use_blank (l : browser_location) :
  rendered_view (app_use router l (app_mount (createApp App))) = None.
Proof. reflexivity. Qed.

(** ** Theorems *)

(** No location string is accepted by two records of [routes]. *)
Lemma routes_match_unique (loc : string) (r1 r2 : route_record) :
  r1 ∈ routes -> r2 ∈ routes ->
  path_matches (path r1) loc = true -> path_matches (path r2) loc = true -> r1 = r2.
Proof.
  rewrite !path_matches_forms. intros. by eapply wf_forms_unique; eauto with tools.
Qed.

(** The router resolves a location to a record iff that record is in
    [routes] and accepts the location's path. *)
Lemma router_resolve_iff (loc : string) (rr : route_record) :
  router_resolve router loc = Some rr <->
  rr ∈ routes /\ path_matches (path rr) (url_path loc) = true.
Proof.
  split; [intros H; apply find_elem_of in H; exact H|]. intros [Hin Hm].
  apply find_unique; [|exact Hin|exact Hm].
  intros y Hy Hmy. exact (routes_match_unique (url_path loc) y rr Hy Hin Hmy Hm).
Qed.

Lemma filter_length_unique {A} (f : A -> bool) (l : list A) :
  NoDup l -> (forall x y, x ∈ l -> y ∈ l -> f x = true -> f y = true -> x = y) ->
  length (List.filter f l) <= 1.
Proof.
  induction 1 as [|a l Ha Hnd IH]; intros Hu; simpl; [lia|].
  assert (Hu' : forall x y, x ∈ l -> y ∈ l -> f x = true -> f y = true -> x = y)
    by (intros; apply Hu; rewrite ?elem_of_cons; auto).
  destruct (f a) eqn:Efa; [|by apply IH].
  destruct (List.filter f l) as [|y ys] eqn:Ef; simpl; [lia|].
  assert (Hy : In y (List.filter f l)) by (rewrite Ef; left; done).
  apply filter_In in Hy as [Hy Hfy]. rewrite <- list_elem_of_In in Hy.
  exfalso. apply Ha. rewrite (Hu a y); [done|by left|by right|done|done].
Qed.

(** C16: at most one record of the route table of [main.js] accepts any
    location path. *)
Theorem routes_at_most_one_match (p : string) :
  length (List.filter (fun rr => path_matches (path rr) p) routes) <= 1.
Proof.
  apply filter_length_unique; [apply (bool_decide_unpack _); vm_compute; reflexivity|].
  intros x y Hx Hy Hmx Hmy. exact (routes_match_unique p x y Hx Hy Hmx Hmy).
Qed.

(** C15: resolution does not depend on the order of the route table: a
    router built on any permutation of [routes] resolves every location as
    [router] does, so vue-router's ranking of matchers cannot change the
    view shown. *)
Theorem router_resolve_order_independent (tbl : list route_record) (loc : string) :
  tbl ≡ₚ routes ->
  router_resolve {| router_history := router_history router; matcher := tbl |} loc =
  router_resolve router loc.
Proof.
  intros Hp. destruct (router_resolve router loc) as [rr|] eqn:E.
  - apply router_resolve_iff in E as [Hin Hm]. unfold router_resolve. cbn [matcher].
    apply find_unique; [|by rewrite Hp|done].
    intros y Hy Hmy. rewrite Hp in Hy. exact (routes_match_unique _ y rr Hy Hin Hmy Hm).
  - unfold router_resolve. cbn [matcher].
    destruct (List.find _ tbl) as [y|] eqn:Ey; [exfalso|done].
    apply find_elem_of in Ey as [Hy Hmy]. rewrite Hp in Hy.
    assert (router_resolve router loc = Some y) as E' by (by apply router_resolve_iff).
    congruence.
Qed.

Lemma router_resolve_order_independent_witness :
  let tbl := reverse routes in
  tbl ≡ₚ routes /\
  router_resolve {| router_history := router_history router; matcher := tbl |} "/ocr" =
  router_resolve router "/ocr".
Proof.
  simpl. split; [apply reverse_Permutation|].
  apply router_resolve_order_independent, reverse_Permutation.
Defined.



(** C18: the views a URL can show are exactly the seven tools: each of them
    has a path, and the root component [App] has none. *)
Theorem view_routed_iff (v : view_component) :
  (exists loc rr, router_resolve router loc = Some rr /\ component rr = v) <-> v <> App.
Proof.
  split.
  - intros (loc & rr & Hr & <-). apply router_resolve_iff in Hr as [Hin _].
    repeat (apply elem_of_cons in Hin as [->|Hin]; [discriminate|]).
    by apply not_elem_of_nil in Hin.
  - intros Hv. pose proof routes_resolve_self as Hself.
    destruct v; [done|..]; repeat (apply Forall_cons in Hself as [? Hself]);
      match goal with
      | H : router_resolve _ ?loc = Some ?rr |- _ => exists loc, rr; split; [exact H|reflexivity]
      end.
Qed.

(** C13: running [main.js] in a browser at location [l] installs and starts
    the router before mounting, so the mounted root has a working
    [<router-view>] that shows the view of the route matching the URL
    [pathname + search + hash] (with lines 28 and 29 swapped it would show
    nothing, [mount_before_use_blank]). *)
Theorem main_js_renders (l : browser_location) :
  app_inv (main_js l) /\
  rendered_view (main_js l) =
    component <$> router_resolve router
      (String.append (pathname l) (String.append (search l) (hash l))).
Proof. repeat split. Qed.

(** C14: in every state reachable from [main.js] by links and history
    navigation, the invariant holds and the view shown is the one the
    current location resolves to. *)
Theorem reachable_app_inv (l : browser_location) (st : app_state) :
  reachable l st ->
  app_inv st /\ rendered_view st = component <$> router_resolve router (app_location st).
Proof.
  intros Hst. assert (Hinv : app_inv st) by (induction Hst; auto with tools).
  split; [done|]. by apply app_inv_rendered.
Qed.

Lemma reachable_app_inv_witness :
  let l := {| pathname := "/ocr"; search := ""; hash := "" |} in
  reachable l (app_event_step (Push "/uuid") (main_js l)) /\
  rendered_view (app_event_step (Push "/uuid") (main_js l)) = Some UuidGenerator.
Proof.
  simpl. split; [apply reach_event, reach_main|].
  rewrite (proj2 (reachable_app_inv _ _ (reach_event _ _ (Push "/uuid") (reach_main _)))).
  vm_compute. reflexivity.
Defined.


End Router.
