(* ===== verification/History.v ===== *)
(** * History: the session history behind [createWebHistory()]

    The router of [main.js] (lines 22-25) keeps the browser's session
    history in step with its current route.  A [<router-link>] click calls
    [router.push]: vue-router first compares the target with the current
    route ([isSameRouteLocation]: same matched record, same query, same
    hash, and a current route that matched something) and, when they are
    the same, returns the failure [NAVIGATION_DUPLICATED] and changes
    nothing; otherwise it commits the route and [routerHistory.push] adds an
    entry after the current one, dropping the entries a former Back left
    ahead.  The Back and Forward buttons move in the entries and fire
    [popstate]; the router's history listener then navigates to the entry's
    location without touching the entries.

    A [browser] is the application's state with the entries of the tab and
    the index of the current one.  The tab is assumed to start at the
    application's URL, so Back on the first entry does nothing.
    [stringifyQuery (parseQuery _)] and the percent-decoding of the hash are
    left as parameters ([stringify_query], [decode_hash]) of the section:
    the theorems hold for any of them. *)

From S2P Require Import Prelude Router.
Import Router.

Module History.

(** [parseURL]'s hash: from the first [#] to the end. *)
Fixpoint url_hash (s : string) : string :=
  match s with
  | EmptyString => EmptyString
  | String c s' => if bool_decide (c = "#"%char) then s else url_hash s'
  end.

Fixpoint upto_hash (s : string) : string :=
  match s with
  | EmptyString => EmptyString
  | String c s' => if bool_decide (c = "#"%char) then EmptyString else String c (upto_hash s')
  end.

(** [parseURL]'s search string: after a [?] that comes before any [#], up to
    the [#]. *)
Fixpoint url_search (s : string) : string :=
  match s with
  | EmptyString => EmptyString
  | String c s' =>
      if bool_decide (c = "#"%char) then EmptyString
      else if bool_decide (c = "?"%char) then upto_hash s'
      else url_search s'
  end.

Inductive nav_failure := NavigationDuplicated.

(** A [<router-link>] click ([router.push]) and the browser's buttons. *)
Inductive nav_event := LinkTo (loc : string) | Back | Forward.

Record browser := {
  tab : app_state;          (** the application, with [currentRoute] *)
  entries : list string;    (** the tab's history entries *)
  pos : nat                 (** the current entry *)
}.

(** [main.js] ran: the first navigation replaced the tab's entry with the
    resolved location. *)
Definition boot (l : browser_location) : browser :=
  let st := main_js l in {| tab := st; entries := [app_location st]; pos := 0 |}.

Section Navigation.

Variable stringify_query : string -> string.
Variable decode_hash : string -> string.

(** [isSameRouteLocation(stringifyQuery, from, to)] for routes of one
    record: a current route that matched nothing is never the same. *)
Definition same_route_location (r : vue_router) (from : app_state) (to : string) : bool :=
  match app_matched from, router_resolve r to with
  | Some ra, Some rb =>
      bool_decide (ra = rb) &&
      (stringify_query (url_search (app_location from)) ==? stringify_query (url_search to)) &&
      (decode_hash (url_hash (app_location from)) ==? decode_hash (url_hash to))
  | _, _ => false
  end.

(** A committed push: [routerHistory.push(fullPath)] after the current
    entry. *)
Definition history_push (r : vue_router) (loc : string) (b : browser) : browser :=
  {| tab := navigate r loc (tab b);
     entries := take (S (pos b)) (entries b) ++ [loc];
     pos := S (pos b) |}.

(** [popstate] at entry [p]: the listener navigates to its location. *)
Definition traverse (r : vue_router) (p : nat) (b : browser) : browser :=
  {| tab := navigate r (nth p (entries b) "") (tab b); entries := entries b; pos := p |}.

Definition hist_step (e : nav_event) (b : browser) : browser * option nav_failure :=
  match app_router (tab b) with
  | Some r =>
      if app_started (tab b) then
        match e with
        | LinkTo loc =>
            if same_route_location r (tab b) loc then (b, Some NavigationDuplicated)
            else (history_push r loc b, None)
        | Back => match pos b with 0 => (b, None) | S p => (traverse r p b, None) end
        | Forward =>
            if S (pos b) <? length (entries b) then (traverse r (S (pos b)) b, None) else (b, None)
        end
      else (b, None)
  | None => (b, None)
  end.

Inductive hist_reachable (l : browser_location) : browser -> Prop :=
| hr_boot : hist_reachable l (boot l)
| hr_step b e : hist_reachable l b -> hist_reachable l (fst (hist_step e b)).

End Navigation.

(** The invariant: the index is an entry, the current route is that entry's
    location, and the application invariant holds. *)
Definition hist_inv (b : browser) : Prop :=
  pos b < length (entries b) /\ app_location (tab b) = nth (pos b) (entries b) "" /\
  app_inv (tab b).

(** ** Lemmas *)

(** Navigating to the current location changes nothing. *)
Lemma navigate_self (st : app_state) : app_inv st -> navigate router (app_location st) st = st.
Proof.
  intros (Hr & Hs & Hm & Hmat). destruct st as [root rt started loc matched mounted outlet].
  cbn in *. subst. reflexivity.
Qed.

Lemma traverse_inv (p : nat) (b : browser) :
  p < length (entries b) -> app_inv (tab b) -> hist_inv (traverse router p b).
Proof. intros Hp Hinv. split; [|split]; cbn; [done|done|auto with tools]. Qed.

Lemma history_push_inv (loc : string) (b : browser) :
  hist_inv b -> hist_inv (history_push router loc b).
Proof.
  intros (Hp & _ & Hinv). split; [|split]; cbn.
  - rewrite length_take_S_snoc by done. lia.
  - by rewrite nth_take_S_snoc_last.
  - auto with tools.
Qed.

(** Once [main.js] ran, a step is the router's reaction to the event. *)
Lemma hist_step_started sq dh (e : nav_event) (b : browser) :
  app_inv (tab b) ->
  hist_step sq dh e b =
    match e with
    | LinkTo loc =>
        if same_route_location sq dh router (tab b) loc then (b, Some NavigationDuplicated)
        else (history_push router loc b, None)
    | Back => match pos b with 0 => (b, None) | S p => (traverse router p b, None) end
    | Forward =>
        if S (pos b) <? length (entries b) then (traverse router (S (pos b)) b, None) else (b, None)
    end.
Proof. intros (Hr & Hs & _). unfold hist_step. by rewrite Hr, Hs. Qed.

Lemma hist_step_inv sq dh (e : nav_event) (b : browser) :
  hist_inv b -> hist_inv (fst (hist_step sq dh e b)).
Proof.
  intros Hb. pose proof Hb as (Hp & _ & Hinv). rewrite hist_step_started by done.
  destruct e as [loc| |].
  - destruct (same_route_location _ _ _ _ _); [done|]. by apply history_push_inv.
  - destruct (pos b) as [|p] eqn:Ep; [done|]. apply traverse_inv; [lia|done].
  - destruct (S (pos b) <? length (entries b)) eqn:E; [|done].
    apply Nat.ltb_lt in E. by apply traverse_inv.
Qed.

Lemma boot_inv (l : browser_location) : hist_inv (boot l).
Proof. split; [|split]; cbn; [lia|done|apply main_js_inv]. Qed.

#[export] Hint Resolve boot_inv hist_step_inv : tools.

Lemma hist_inv_rendered (b : browser) :
  hist_inv b -> rendered_view (tab b) = component <$> router_resolve router (nth (pos b) (entries b) "").
Proof. intros (_ & Hl & Hinv). rewrite <- Hl. by apply app_inv_rendered. Qed.

Lemma rendered_navigate (loc : string) (st : app_state) :
  app_inv st -> rendered_view (navigate router loc st) = component <$> router_resolve router loc.
Proof. intros Hinv. by apply (app_inv_rendered (navigate router loc st)), navigate_inv. Qed.

Lemma navigate_navigate (r : vue_router) (l1 l2 : string) (st : app_state) :
  navigate r l2 (navigate r l1 st) = navigate r l2 st.
Proof. reflexivity. Qed.

(** A committed link: what the step gives when it does not fail. *)
Lemma hist_link_commit sq dh (b b1 : browser) (loc : string) :
  hist_inv b -> hist_step sq dh (LinkTo loc) b = (b1, None) -> b1 = history_push router loc b.
Proof.
  intros (_ & _ & Hinv) Hs. rewrite hist_step_started in Hs by done.
  by destruct (same_route_location _ _ _ _ _); simplify_eq.
Qed.

Lemma same_route_location_spec sq dh (st : app_state) (loc : string) :
  app_inv st ->
  same_route_location sq dh router st loc = true <->
  exists rr, router_resolve router (app_location st) = Some rr /\ router_resolve router loc = Some rr /\
    sq (url_search (app_location st)) = sq (url_search loc) /\
    dh (url_hash (app_location st)) = dh (url_hash loc).
Proof.
  intros (_ & _ & _ & Hmat). unfold same_route_location. rewrite Hmat.
  destruct (router_resolve router (app_location st)) as [ra|], (router_resolve router loc) as [rb|];
    [|split; [done|intros (rr & ? & ? & _); congruence]..].
  rewrite !andb_true_iff, bool_decide_eq_true, !String.eqb_eq. split.
  - intros ((<- & ?) & ?). by exists ra.
  - intros (rr & [= <-] & [= <-] & ? & ?). auto.
Qed.

(** Back right after a committed push is the traversal to the former
    entry, at the former location. *)
Lemma back_after_push sq dh (b : browser) (loc : string) :
  hist_inv b ->
  let b2 := fst (hist_step sq dh Back (history_push router loc b)) in
  app_location (tab b2) = app_location (tab b) /\ pos b2 = pos b /\ hist_inv b2.
Proof.
  intros Hb. pose proof Hb as (Hp & Hl & Hinv). cbv zeta.
  assert (Hb1 : hist_inv (history_push router loc b)) by (by apply history_push_inv).
  rewrite hist_step_started by (cbn; auto with tools). cbn [pos history_push fst].
  split; [|split; [done|apply traverse_inv; cbn; [rewrite length_take_S_snoc by done; lia|auto with tools]]].
  unfold traverse, history_push, navigate. cbn [tab entries pos app_location]. by rewrite nth_take_S_snoc_prev, <- Hl.
Qed.

(** After a link the view shown is the one of its target, whether the link
    committed or was refused (a refused link targets the current record). *)
Lemma rendered_link sq dh (b : browser) (loc : string) :
  hist_inv b ->
  rendered_view (tab (fst (hist_step sq dh (LinkTo loc) b))) = component <$> router_resolve router loc.
Proof.
  intros Hb. pose proof Hb as (_ & _ & Hinv). rewrite hist_step_started by done.
  destruct (same_route_location _ _ _ _ _) eqn:E; [|by apply rendered_navigate].
  apply same_route_location_spec in E as (rr & Hc & Hl & _); [|done]. cbn [fst].
  by rewrite app_inv_rendered, Hc, Hl.
Qed.

(** ** Theorems *)

(** C19: in every state reachable from [main.js] by links and the Back and
    Forward buttons, the current entry is an entry of the tab, the current
    route is its location, the application invariant holds, and the view
    shown is the one the current entry resolves to. *)
Theorem hist_reachable_inv sq dh (l : browser_location) (b : browser) :
  hist_reachable sq dh l b ->
  hist_inv b /\ rendered_view (tab b) = component <$> router_resolve router (nth (pos b) (entries b) "").
Proof.
  intros Hb. assert (Hinv : hist_inv b) by (induction Hb; auto with tools).
  split; [done|]. by apply hist_inv_rendered.
Qed.

Lemma hist_reachable_inv_witness :
  let l := {| pathname := "/text-diff"; search := ""; hash := "" |} in
  let b := fst (hist_step (fun q => q) (fun h => h) (LinkTo "/ocr") (boot l)) in
  hist_reachable (fun q => q) (fun h => h) l b /\ rendered_view (tab b) = Some ImageOCR.
Proof.
  cbv zeta. split; [apply hr_step, hr_boot|].
  pose proof (hist_reachable_inv _ _ _ _ (hr_step (fun q => q) (fun h => h)
    {| pathname := "/text-diff"; search := ""; hash := "" |} _ (LinkTo "/ocr") (hr_boot _ _ _))) as [_ H].
  rewrite H. reflexivity.
Defined.

(** C20: Back right after a committed link returns to the location and the
    view shown before the link, at the same entry. *)
Theorem hist_back_after_link sq dh (b b1 : browser) (loc : string) :
  hist_inv b -> hist_step sq dh (LinkTo loc) b = (b1, None) ->
  let b2 := fst (hist_step sq dh Back b1) in
  app_location (tab b2) = app_location (tab b) /\ rendered_view (tab b2) = rendered_view (tab b) /\
  pos b2 = pos b.
Proof.
  intros Hb Hs. rewrite (hist_link_commit _ _ _ _ _ Hb Hs).
  destruct (back_after_push sq dh b loc Hb) as (Hl & Hp & (_ & _ & Hinv2)).
  split; [done|split; [|done]].
  rewrite !app_inv_rendered by (auto || apply Hb). by rewrite Hl.
Qed.

Lemma hist_back_after_link_witness :
  let l := {| pathname := "/text-diff"; search := ""; hash := "" |} in
  let b1 := fst (hist_step (fun q => q) (fun h => h) (LinkTo "/ocr") (boot l)) in
  hist_inv (boot l) /\ hist_step (fun q => q) (fun h => h) (LinkTo "/ocr") (boot l) = (b1, None) /\
  rendered_view (tab (fst (hist_step (fun q => q) (fun h => h) Back b1))) = Some TextDiff.
Proof.
  intros l b1. assert (Hs : hist_step (fun q => q) (fun h => h) (LinkTo "/ocr") (boot l) = (b1, None))
    by reflexivity.
  split; [apply boot_inv|split; [exact Hs|]].
  destruct (hist_back_after_link _ _ (boot l) b1 "/ocr" (boot_inv l) Hs) as (_ & -> & _).
  reflexivity.
Defined.

(** C21: a link fails with [NavigationDuplicated] exactly when its target
    resolves to the record of the current route with the same query and
    hash (so clicking the link of the page shown, in any letter case, does
    nothing), and a failed link changes neither the route nor the
    history. *)
Theorem hist_link_duplicated sq dh (b : browser) (loc : string) :
  hist_inv b ->
  (snd (hist_step sq dh (LinkTo loc) b) = Some NavigationDuplicated <->
   exists rr, router_resolve router (app_location (tab b)) = Some rr /\
     router_resolve router loc = Some rr /\
     sq (url_search (app_location (tab b))) = sq (url_search loc) /\
     dh (url_hash (app_location (tab b))) = dh (url_hash loc)) /\
  (snd (hist_step sq dh (LinkTo loc) b) = Some NavigationDuplicated ->
   fst (hist_step sq dh (LinkTo loc) b) = b).
Proof.
  intros (_ & _ & Hinv). rewrite hist_step_started, <- same_route_location_spec by done.
  destruct (same_route_location _ _ _ _ _); cbn; [done|]. split; [split; [done|discriminate]|done].
Qed.

Lemma hist_link_duplicated_witness :
  let l := {| pathname := "/text-diff"; search := ""; hash := "" |} in
  hist_inv (boot l) /\
  snd (hist_step (fun q => q) (fun h => h) (LinkTo "/Text-Diff/") (boot l)) = Some NavigationDuplicated /\
  fst (hist_step (fun q => q) (fun h => h) (LinkTo "/Text-Diff/") (boot l)) = boot l.
Proof.
  intros l. destruct (hist_link_duplicated (fun q => q) (fun h => h) (boot l) "/Text-Diff/" (boot_inv l))
    as [Hiff Hkeep].
  assert (Hd : snd (hist_step (fun q => q) (fun h => h) (LinkTo "/Text-Diff/") (boot l)) = Some NavigationDuplicated)
    by (apply Hiff; exists {| path := "/text-diff"; component := TextDiff |};
        split; [reflexivity|split; [reflexivity|split; reflexivity]]).
  split; [apply boot_inv|split; [exact Hd|exact (Hkeep Hd)]].
Defined.

(** C22: Forward right after Back restores the browser state exactly:
    route, view, entries and index. *)
Theorem hist_back_forward sq dh (b : browser) :
  hist_inv b -> 0 < pos b -> fst (hist_step sq dh Forward (fst (hist_step sq dh Back b))) = b.
Proof.
  intros Hb Hpos. pose proof Hb as (Hp & Hl & Hinv).
  rewrite (hist_step_started sq dh Back b) by done. destruct (pos b) as [|p] eqn:Ep; [lia|]. cbn [fst].
  rewrite hist_step_started by (cbn; auto with tools). cbn [pos entries traverse].
  rewrite (proj2 (Nat.ltb_lt _ _)) by lia. cbn [fst]. unfold traverse. cbn [tab entries].
  rewrite navigate_navigate, <- Hl, navigate_self by done. rewrite <- Ep.
  destruct b as [t es q]. cbn in *. by subst.
Qed.

Lemma hist_back_forward_witness :
  let l := {| pathname := "/text-diff"; search := ""; hash := "" |} in
  let b := fst (hist_step (fun q => q) (fun h => h) (LinkTo "/ocr") (boot l)) in
  hist_inv b /\ 0 < pos b /\
  fst (hist_step (fun q => q) (fun h => h) Forward (fst (hist_step (fun q => q) (fun h => h) Back b))) = b.
Proof.
  intros l b. assert (Hb : hist_inv b) by apply hist_step_inv, boot_inv.
  assert (Hp : 0 < pos b) by (vm_compute; lia).
  split; [exact Hb|split; [exact Hp|exact (hist_back_forward _ _ b Hb Hp)]].
Defined.

(** C23: a committed link opens a new entry right after the current one,
    discards the entries ahead of it (Forward then does nothing), and shows
    the view of its target. *)
Theorem hist_link_discards_forward sq dh (b b1 : browser) (loc : string) :
  hist_inv b -> hist_step sq dh (LinkTo loc) b = (b1, None) ->
  entries b1 = take (S (pos b)) (entries b) ++ [loc] /\ pos b1 = S (pos b) /\
  app_location (tab b1) = loc /\ rendered_view (tab b1) = component <$> router_resolve router loc /\
  fst (hist_step sq dh Forward b1) = b1.
Proof.
  intros Hb Hs. pose proof Hb as (Hp & _ & Hinv). rewrite (hist_link_commit _ _ _ _ _ Hb Hs).
  do 3 (split; [done|]). split; [by apply rendered_navigate|].
  rewrite hist_step_started by (cbn; auto with tools). cbn [pos entries history_push].
  rewrite length_take_S_snoc by done. by rewrite Nat.ltb_irrefl.
Qed.

Lemma hist_link_discards_forward_witness :
  let l := {| pathname := "/uuid"; search := ""; hash := "" |} in
  let b := fst (hist_step (fun q => q) (fun h => h) Back
                 (fst (hist_step (fun q => q) (fun h => h) (LinkTo "/ocr") (boot l)))) in
  let b1 := fst (hist_step (fun q => q) (fun h => h) (LinkTo "/base64") b) in
  hist_inv b /\ hist_step (fun q => q) (fun h => h) (LinkTo "/base64") b = (b1, None) /\
  entries b1 = ["/uuid"; "/base64"].
Proof.
  intros l b b1. assert (Hb : hist_inv b) by (apply hist_step_inv, hist_step_inv, boot_inv).
  assert (Hs : hist_step (fun q => q) (fun h => h) (LinkTo "/base64") b = (b1, None)) by reflexivity.
  split; [exact Hb|split; [exact Hs|]].
  destruct (hist_link_discards_forward _ _ b b1 "/base64" Hb Hs) as (-> & _). reflexivity.
Defined.

(** C24: a link whose target matches no route always commits, even when the
    target is the current location (the current route matched nothing, so
    it is never the same), and the page then shows no view. *)
Theorem hist_link_unmatched sq dh (b : browser) (loc : string) :
  hist_inv b -> router_resolve router loc = None ->
  snd (hist_step sq dh (LinkTo loc) b) = None /\
  length (entries (fst (hist_step sq dh (LinkTo loc) b))) = S (S (pos b)) /\
  rendered_view (tab (fst (hist_step sq dh (LinkTo loc) b))) = None.
Proof.
  intros Hb Hr. pose proof Hb as (Hp & _ & Hinv). rewrite hist_step_started by done.
  assert (E : same_route_location sq dh router (tab b) loc = false)
    by (unfold same_route_location; rewrite Hr; by destruct (app_matched (tab b))).
  rewrite E. cbn [snd fst history_push entries tab].
  split; [done|split; [by apply length_take_S_snoc|by rewrite rendered_navigate, Hr]].
Qed.

Lemma hist_link_unmatched_witness :
  let l := {| pathname := "/settings"; search := ""; hash := "" |} in
  hist_inv (boot l) /\ router_resolve router "/settings" = None /\
  snd (hist_step (fun q => q) (fun h => h) (LinkTo "/settings") (boot l)) = None /\
  length (entries (fst (hist_step (fun q => q) (fun h => h) (LinkTo "/settings") (boot l)))) = 2.
Proof.
  intros l. assert (Hr : router_resolve router "/settings" = None) by reflexivity.
  destruct (hist_link_unmatched (fun q => q) (fun h => h) (boot l) "/settings" (boot_inv l) Hr) as (H1 & H2 & _).
  split; [apply boot_inv|split; [exact Hr|split; [exact H1|exact H2]]].
Defined.

(** C31: clicking a link to a location that matches a route a second time
    changes nothing: the second click is refused as duplicated and the
    state after two clicks is the state after one. *)
Theorem hist_link_idempotent sq dh (b : browser) (loc : string) (rr : route_record) :
  hist_inv b -> router_resolve router loc = Some rr ->
  let b1 := fst (hist_step sq dh (LinkTo loc) b) in
  hist_step sq dh (LinkTo loc) b1 = (b1, Some NavigationDuplicated).
Proof.
  intros Hb Hr. pose proof Hb as (_ & _ & Hinv). cbv zeta.
  rewrite (hist_step_started _ _ _ b) by done.
  destruct (same_route_location sq dh router (tab b) loc) eqn:E; cbn [fst].
  - by rewrite hist_step_started, E.
  - pose proof (history_push_inv loc b Hb) as (_ & _ & Hinv1).
    rewrite hist_step_started by done.
    assert (Hs : same_route_location sq dh router (tab (history_push router loc b)) loc = true)
      by (apply same_route_location_spec; [done|by exists rr]).
    by rewrite Hs.
Qed.

Lemma hist_link_idempotent_witness :
  let l := {| pathname := "/uuid"; search := ""; hash := "" |} in
  hist_inv (boot l) /\ router_resolve router "/ocr" = Some {| path := "/ocr"; component := ImageOCR |} /\
  snd (hist_step (fun q => q) (fun h => h) (LinkTo "/ocr")
        (fst (hist_step (fun q => q) (fun h => h) (LinkTo "/ocr") (boot l)))) = Some NavigationDuplicated.
Proof.
  intros l. assert (Hr : router_resolve router "/ocr" = Some {| path := "/ocr"; component := ImageOCR |})
    by reflexivity.
  split; [apply boot_inv|split; [exact Hr|]].
  by rewrite (hist_link_idempotent _ _ (boot l) "/ocr" _ (boot_inv l) Hr).
Defined.

End History.
