(* ===== verification/Lines.v ===== *)
(** * Lines: turning a text buffer into the diff engine's [DocumentLines]

    The diff view splits each input on line breaks ([text.split('\n')],
    here [split_on_nl]) and drops the empty piece a final line break leaves
    ([splitLines]); the spec fixes that policy through its example
    [computeDiff("", "x\ny\n")] with two added lines.  A carriage return is
    an ordinary character of the line.  [join_lines] is [lines.join('\n')]
    and [unlines] writes every line with its terminator. *)

From S2P Require Import Prelude.

Module Lines.

Definition nl : ascii := "010"%char.

(** [s.split('\n')]: never empty; [k] line breaks give [k + 1] pieces. *)
Fixpoint split_on_nl (s : string) : list string :=
  match s with
  | EmptyString => [""]
  | String c s' =>
      let parts := split_on_nl s' in
      if bool_decide (c = nl) then "" :: parts
      else String c (default "" (head parts)) :: tail parts
  end.

(** The document's lines: the pieces, without the empty one that follows a
    final line break. *)
Definition splitLines (text : string) : list string :=
  let parts := split_on_nl text in
  if bool_decide (last parts = Some "") then removelast parts else parts.

(** [lines.join('\n')]. *)
Fixpoint join_lines (ls : list string) : string :=
  match ls with
  | [] => ""
  | [l] => l
  | l :: ls' => String.append l (String nl (join_lines ls'))
  end.

(** Every line followed by its line break. *)
Fixpoint unlines (ls : list string) : string :=
  match ls with
  | [] => ""
  | l :: ls' => String.append l (String nl (unlines ls'))
  end.

Fixpoint has_nl (s : string) : bool :=
  match s with
  | EmptyString => false
  | String c s' => bool_decide (c = nl) || has_nl s'
  end.

Fixpoint final_newline (s : string) : bool :=
  match s with
  | EmptyString => false
  | String c EmptyString => bool_decide (c = nl)
  | String _ s' => final_newline s'
  end.

(** ** Lemmas *)

Lemma split_on_nl_cons (s : string) : exists h t, split_on_nl s = h :: t.
Proof. destruct s as [|c s]; simpl; [by eexists _, _|]. case_bool_decide; by eexists _, _. Qed.

Lemma split_on_nl_char (c : ascii) (s : string) :
  c <> nl -> forall h t, split_on_nl s = h :: t -> split_on_nl (String c s) = String c h :: t.
Proof. intros Hc h t Hs. simpl. rewrite Hs. by case_bool_decide. Qed.

Lemma join_lines_cons_cons (l h : string) (t : list string) :
  join_lines (l :: h :: t) = String.append l (String nl (join_lines (h :: t))).
Proof. reflexivity. Qed.

Lemma join_lines_char (c : ascii) (h : string) (t : list string) :
  join_lines (String c h :: t) = String c (join_lines (h :: t)).
Proof. destruct t; reflexivity. Qed.

Lemma split_on_nl_app_line (l r : string) :
  has_nl l = false -> split_on_nl (String.append l (String nl r)) = l :: split_on_nl r.
Proof.
  induction l as [|c l IH]; intros Hl; [rewrite string_app_nil_l; simpl; try case_bool_decide; done|].
  simpl in Hl. apply orb_false_iff in Hl as [Hc Hl]. apply bool_decide_eq_false in Hc.
  rewrite string_app_cons. by apply split_on_nl_char; [|apply IH].
Qed.

Lemma split_on_nl_snoc (s : string) : split_on_nl (String.append s (String nl "")) = split_on_nl s ++ [""].
Proof.
  induction s as [|c s IH]; [rewrite string_app_nil_l; simpl; try case_bool_decide; done|].
  rewrite string_app_cons. simpl. rewrite IH.
  destruct (split_on_nl_cons s) as (h & t & ->). by case_bool_decide.
Qed.

Lemma string_snoc_cases (s : string) :
  s = "" \/ exists s0 c, s = String.append s0 (String c "").
Proof.
  induction s as [|c s [->|(s0 & c' & ->)]]; [by left|right..].
  - by exists "", c.
  - exists (String c s0), c'. by rewrite string_app_cons.
Qed.

Lemma final_newline_snoc (s0 : string) (c : ascii) :
  final_newline (String.append s0 (String c "")) = bool_decide (c = nl).
Proof.
  induction s0 as [|d s0 IH]; [done|]. rewrite string_app_cons. simpl.
  rewrite IH. by destruct s0.
Qed.

Lemma last_split_on_nl_char (s0 : string) (c : ascii) :
  c <> nl -> exists p, last (split_on_nl (String.append s0 (String c ""))) = Some p /\ p <> "".
Proof.
  intros Hc. induction s0 as [|d s0 (p & Hp & Hne)].
  - exists (String c ""). simpl. by case_bool_decide.
  - rewrite string_app_cons. simpl.
    destruct (split_on_nl_cons (String.append s0 (String c ""))) as (h & t & Hs).
    rewrite Hs in Hp |- *. case_bool_decide.
    + by exists p.
    + destruct t as [|x t]; simpl in Hp |- *.
      * exists (String d h). split; [done|discriminate].
      * by exists p.
Qed.

Lemma removelast_snoc {A} (l : list A) (x : A) : removelast (l ++ [x]) = l.
Proof. apply removelast_last. Qed.

(** [splitLines] on a text that ends without a line break keeps every piece. *)
Lemma splitLines_char (s0 : string) (c : ascii) :
  c <> nl -> splitLines (String.append s0 (String c "")) = split_on_nl (String.append s0 (String c "")).
Proof.
  intros Hc. unfold splitLines. destruct (last_split_on_nl_char s0 c Hc) as (p & -> & Hp).
  case_bool_decide as H; [congruence|done].
Qed.

Lemma splitLines_nl (s0 : string) :
  splitLines (String.append s0 (String nl "")) = split_on_nl s0.
Proof.
  unfold splitLines. rewrite split_on_nl_snoc, last_snoc.
  rewrite bool_decide_eq_true_2 by done. apply removelast_snoc.
Qed.

#[export] Hint Resolve split_on_nl_snoc removelast_snoc : tools.

(** [split('\n')] then [join('\n')] gives the text back. *)
Lemma join_split_on_nl (s : string) : join_lines (split_on_nl s) = s.
Proof.
  induction s as [|c s IH]; [done|].
  destruct (split_on_nl_cons s) as (h & t & Hs). rewrite Hs in IH.
  cbn [split_on_nl]. rewrite Hs. case_bool_decide as Hc.
  - by rewrite join_lines_cons_cons, string_app_nil_l, IH, Hc.
  - change (default "" (head (h :: t))) with h. change (tail (h :: t)) with t.
    by rewrite join_lines_char, IH.
Qed.

(** A text is its lines joined with line breaks, followed by a line break
    exactly when the text ends with one. *)
Lemma splitLines_reconstruct (s : string) :
  String.append (join_lines (splitLines s)) (if final_newline s then String nl "" else "") = s.
Proof.
  destruct (string_snoc_cases s) as [->|(s0 & c & ->)]; [done|].
  rewrite final_newline_snoc. case_bool_decide as Hc.
  - subst. by rewrite splitLines_nl, join_split_on_nl.
  - by rewrite splitLines_char, join_split_on_nl, string_app_nil_r.
Qed.

Lemma split_on_nl_no_nl (l : string) : has_nl l = false -> split_on_nl l = [l].
Proof.
  induction l as [|c l IH]; [done|]. simpl. intros [Hc Hl]%orb_false_iff.
  rewrite IH by done. by rewrite Hc.
Qed.

(** A non-empty text that does not end with a line break has the same lines
    as the text with one appended. *)
Lemma splitLines_snoc_nl (s : string) :
  s <> "" -> final_newline s = false ->
  splitLines (String.append s (String nl "")) = splitLines s.
Proof.
  intros Hs Hf. rewrite splitLines_nl.
  destruct (string_snoc_cases s) as [->|(s0 & c & ->)]; [done|].
  rewrite final_newline_snoc in Hf. apply bool_decide_eq_false in Hf.
  by rewrite splitLines_char.
Qed.

(** ** Theorems *)

(** [join('\n')] then [split('\n')] gives back any non-empty list of
    lines that contain no line break. *)
Theorem split_on_nl_join_lines (ls : list string) :
  ls <> [] -> Forall (fun l => has_nl l = false) ls -> split_on_nl (join_lines ls) = ls.
Proof.
  intros Hne Hls. induction Hls as [|l ls Hl Hls IH]; [done|].
  destruct ls as [|l' ls]; [by apply split_on_nl_no_nl|].
  rewrite join_lines_cons_cons, split_on_nl_app_line by done. by rewrite IH.
Qed.

Lemma split_on_nl_join_lines_witness :
  ["a"; "b"] <> [] /\ Forall (fun l => has_nl l = false) ["a"; "b"] /\
  split_on_nl (join_lines ["a"; "b"]) = ["a"; "b"].
Proof.
  split; [discriminate|split; [repeat constructor|]].
  apply split_on_nl_join_lines; [discriminate|repeat constructor].
Defined.

(** lines without line breaks, each written with its terminator, are
    split back into the same lines. *)
Theorem splitLines_unlines (ls : list string) :
  Forall (fun l => has_nl l = false) ls -> splitLines (unlines ls) = ls.
Proof.
  intros Hls. assert (H : split_on_nl (unlines ls) = ls ++ [""]).
  { induction Hls as [|l ls Hl _ IH]; [done|]. simpl.
    by rewrite split_on_nl_app_line, IH. }
  unfold splitLines. rewrite H, last_snoc, bool_decide_eq_true_2 by done.
  apply removelast_snoc.
Qed.

Lemma splitLines_unlines_witness :
  Forall (fun l => has_nl l = false) ["a"; ""; "c"] /\
  splitLines (unlines ["a"; ""; "c"]) = ["a"; ""; "c"].
Proof. split; [repeat constructor|apply splitLines_unlines; repeat constructor]. Defined.

End Lines.
