(* ===== verification/Lcs.v ===== *)
(** * Lcs: the reference theory of line diffs

    Generic over a line type with decidable equality.  An edit script
    ([list (edit A)]) keeps, deletes or inserts lines; [src] and [dst] are
    the documents it reads and writes.  [lcs_len xs ys] is the LCS length
    by the recurrence of the spec, read on reversed prefixes: the head of
    [xs] is the last line of the left prefix, so that the equations are
    those of [table[i][j]].  [bt] is the reference backtracking from the
    ends of both documents, with the spec's tie-break toward deletion; it
    lists edits from the end, so [rev (bt (rev a) (rev b))] is the diff in
    display order ([display_diff]).  The type class [LineDiff] is the
    contract the text diff view relies on, and its client lemmas are proved
    from the class alone. *)

From S2P Require Import Prelude.

Module Lcs.

Inductive edit (A : Type) := Keep (x : A) | Del (x : A) | Ins (y : A).
Arguments Keep {A} _.
Arguments Del {A} _.
Arguments Ins {A} _.

Section Lcs.
Context {A : Type} `{EqDecision A}.

Implicit Types (xs ys l : list A) (es : list (edit A)).

(** ** Edit scripts *)

Fixpoint src es : list A :=
  match es with
  | [] => []
  | Keep x :: es' | Del x :: es' => x :: src es'
  | Ins _ :: es' => src es'
  end.

Fixpoint dst es : list A :=
  match es with
  | [] => []
  | Keep x :: es' | Ins x :: es' => x :: dst es'
  | Del _ :: es' => dst es'
  end.

Fixpoint kept es : list A :=
  match es with
  | [] => []
  | Keep x :: es' => x :: kept es'
  | _ :: es' => kept es'
  end.

Fixpoint n_del es : nat :=
  match es with [] => 0 | Del _ :: es' => S (n_del es') | _ :: es' => n_del es' end.

Fixpoint n_ins es : nat :=
  match es with [] => 0 | Ins _ :: es' => S (n_ins es') | _ :: es' => n_ins es' end.

(** The number of changed lines of a script. *)
Definition n_changes es : nat := n_del es + n_ins es.

(** ** The LCS recurrence and the reference backtracking *)

Fixpoint lcs_len xs ys : nat :=
  match xs with
  | [] => 0
  | x :: xs' =>
      let fix lcs_x (ys : list A) : nat :=
        match ys with
        | [] => 0
        | y :: ys' =>
            if decide (x = y) then S (lcs_len xs' ys')
            else lcs_len xs' ys `max` lcs_x ys'
        end in
      lcs_x ys
  end.

Fixpoint bt xs ys : list (edit A) :=
  match xs with
  | [] => map Ins ys
  | x :: xs' =>
      let fix bt_x (ys : list A) : list (edit A) :=
        match ys with
        | [] => Del x :: bt xs' []
        | y :: ys' =>
            if decide (x = y) then Keep x :: bt xs' ys'
            else if decide (lcs_len (x :: xs') ys' <= lcs_len xs' ys)
                 then Del x :: bt xs' ys
                 else Ins y :: bt_x ys'
        end in
      bt_x ys
  end.

Definition display_diff (a b : list A) : list (edit A) := rev (bt (rev a) (rev b)).

(** ** Equations *)

Lemma lcs_len_nil_r xs : lcs_len xs [] = 0.
Proof. by destruct xs. Qed.

Lemma lcs_len_cons x xs y ys :
  lcs_len (x :: xs) (y :: ys) =
  if decide (x = y) then S (lcs_len xs ys)
  else lcs_len xs (y :: ys) `max` lcs_len (x :: xs) ys.
Proof. reflexivity. Qed.

Lemma bt_cons_nil x xs : bt (x :: xs) [] = Del x :: bt xs [].
Proof. reflexivity. Qed.

Lemma bt_cons x xs y ys :
  bt (x :: xs) (y :: ys) =
  if decide (x = y) then Keep x :: bt xs ys
  else if decide (lcs_len (x :: xs) ys <= lcs_len xs (y :: ys))
       then Del x :: bt xs (y :: ys)
       else Ins y :: bt (x :: xs) ys.
Proof. reflexivity. Qed.

(** ** Projections of scripts *)

Lemma src_app es1 es2 : src (es1 ++ es2) = src es1 ++ src es2.
Proof. induction es1 as [|[] ? IH]; simpl; by rewrite ?IH. Qed.

Lemma dst_app es1 es2 : dst (es1 ++ es2) = dst es1 ++ dst es2.
Proof. induction es1 as [|[] ? IH]; simpl; by rewrite ?IH. Qed.

Lemma kept_app es1 es2 : kept (es1 ++ es2) = kept es1 ++ kept es2.
Proof. induction es1 as [|[] ? IH]; simpl; by rewrite ?IH. Qed.

Lemma n_del_app es1 es2 : n_del (es1 ++ es2) = n_del es1 + n_del es2.
Proof. induction es1 as [|[] ? IH]; simpl; lia. Qed.

Lemma n_ins_app es1 es2 : n_ins (es1 ++ es2) = n_ins es1 + n_ins es2.
Proof. induction es1 as [|[] ? IH]; simpl; lia. Qed.

Lemma src_rev es : src (rev es) = rev (src es).
Proof. induction es as [|[] ? IH]; simpl; rewrite ?src_app, ?IH; simpl; by rewrite ?app_nil_r. Qed.

Lemma dst_rev es : dst (rev es) = rev (dst es).
Proof. induction es as [|[] ? IH]; simpl; rewrite ?dst_app, ?IH; simpl; by rewrite ?app_nil_r. Qed.

Lemma kept_rev es : kept (rev es) = rev (kept es).
Proof. induction es as [|[] ? IH]; simpl; rewrite ?kept_app, ?IH; simpl; by rewrite ?app_nil_r. Qed.

Lemma n_del_rev es : n_del (rev es) = n_del es.
Proof. induction es as [|[] ? IH]; simpl; rewrite ?n_del_app; simpl; lia. Qed.

Lemma n_ins_rev es : n_ins (rev es) = n_ins es.
Proof. induction es as [|[] ? IH]; simpl; rewrite ?n_ins_app; simpl; lia. Qed.

Lemma length_src es : length (src es) = length (kept es) + n_del es.
Proof. induction es as [|[] ? IH]; simpl; lia. Qed.

Lemma length_dst es : length (dst es) = length (kept es) + n_ins es.
Proof. induction es as [|[] ? IH]; simpl; lia. Qed.

Lemma kept_sublist_src es : kept es `sublist_of` src es.
Proof. induction es as [|[] ? IH]; simpl; auto with tools. Qed.

Lemma kept_sublist_dst es : kept es `sublist_of` dst es.
Proof. induction es as [|[] ? IH]; simpl; auto with tools. Qed.

(** ** The reference backtracking reads and writes the documents *)

Lemma src_bt xs ys : src (bt xs ys) = xs.
Proof.
  revert ys. induction xs as [|x xs IHx]; intros ys.
  - induction ys; simpl in *; congruence.
  - induction ys as [|y ys IHy]; [rewrite bt_cons_nil; simpl; by rewrite IHx|].
    rewrite bt_cons. repeat case_decide; cbn [src dst]; rewrite ?IHx, ?IHy; congruence.
Qed.

Lemma dst_bt xs ys : dst (bt xs ys) = ys.
Proof.
  revert ys. induction xs as [|x xs IHx]; intros ys.
  - induction ys; simpl in *; congruence.
  - induction ys as [|y ys IHy]; [rewrite bt_cons_nil; simpl; by rewrite IHx|].
    rewrite bt_cons. repeat case_decide; cbn [src dst]; rewrite ?IHx, ?IHy; congruence.
Qed.

Lemma kept_bt xs ys : length (kept (bt xs ys)) = lcs_len xs ys.
Proof.
  revert ys. induction xs as [|x xs IHx]; intros ys.
  - induction ys; simpl in *; congruence.
  - induction ys as [|y ys IHy]; [rewrite bt_cons_nil; simpl; by rewrite IHx, lcs_len_nil_r|].
    rewrite bt_cons, lcs_len_cons. repeat case_decide; cbn [kept length]; rewrite ?IHx, ?IHy; lia.
Qed.

(** ** [lcs_len] is the length of a longest common subsequence *)

Lemma lcs_len_upper xs ys l :
  l `sublist_of` xs -> l `sublist_of` ys -> length l <= lcs_len xs ys.
Proof.
  revert ys l. induction xs as [|x xs IHx]; intros ys.
  { intros l Hx _. apply sublist_nil_r in Hx as ->. simpl. lia. }
  induction ys as [|y ys IHy]; intros l Hx Hy.
  { apply sublist_nil_r in Hy as ->. simpl. lia. }
  rewrite lcs_len_cons.
  apply sublist_cons_r in Hx as [Hx|(l' & -> & Hx)];
    apply sublist_cons_r in Hy as [Hy|(l'' & Heq & Hy)]; case_decide as Hxy.
  - pose proof (IHx ys l Hx Hy). lia.
  - pose proof (IHx (y :: ys) l Hx (sublist_cons _ _ _ Hy)). lia.
  - subst. apply sublist_cons_drop in Hx. pose proof (IHx ys l'' Hx Hy). simpl. lia.
  - subst. pose proof (IHx (y :: ys) _ Hx (sublist_skip _ _ _ Hy)). lia.
  - subst. apply sublist_cons_drop in Hy. pose proof (IHx ys l' Hx Hy). simpl. lia.
  - pose proof (IHy (x :: l') (sublist_skip _ _ _ Hx) Hy). lia.
  - injection Heq as -> ->. pose proof (IHx ys l'' Hx Hy). simpl. lia.
  - by injection Heq as -> ->.
Qed.

Theorem lcs_len_spec xs ys :
  (exists l, l `sublist_of` xs /\ l `sublist_of` ys /\ length l = lcs_len xs ys) /\
  (forall l, l `sublist_of` xs -> l `sublist_of` ys -> length l <= lcs_len xs ys).
Proof.
  split; [|apply lcs_len_upper].
  pose proof (kept_sublist_src (bt xs ys)) as H1. rewrite src_bt in H1.
  pose proof (kept_sublist_dst (bt xs ys)) as H2. rewrite dst_bt in H2.
  exists (kept (bt xs ys)). by rewrite kept_bt.
Qed.

(** [lcs_len] is monotone in the set of lengths of common subsequences. *)
Lemma lcs_len_le_of xs ys xs' ys' :
  (forall l, l `sublist_of` xs -> l `sublist_of` ys ->
     exists l', l' `sublist_of` xs' /\ l' `sublist_of` ys' /\ length l' = length l) ->
  lcs_len xs ys <= lcs_len xs' ys'.
Proof.
  intros Hmap. destruct (lcs_len_spec xs ys) as [(l & H1 & H2 & <-) _].
  destruct (Hmap l H1 H2) as (l' & H1' & H2' & <-). by apply lcs_len_upper.
Qed.

(** The LCS length does not depend on the order of the two sequences. *)
Lemma lcs_len_comm xs ys : lcs_len xs ys = lcs_len ys xs.
Proof. apply Nat.le_antisymm; apply lcs_len_le_of; intros l H1 H2; by exists l. Qed.

Lemma lcs_len_rev xs ys : lcs_len (rev xs) (rev ys) = lcs_len xs ys.
Proof.
  apply Nat.le_antisymm; apply lcs_len_le_of; intros l H1 H2; exists (rev l);
    rewrite length_rev; (split; [|split]); try done.
  - by rewrite <- sublist_rev_iff, rev_involutive.
  - by rewrite <- sublist_rev_iff, rev_involutive.
  - by apply sublist_rev.
  - by apply sublist_rev.
Qed.

Lemma lcs_len_mono_r xs y ys : lcs_len xs ys <= lcs_len xs (y :: ys).
Proof.
  destruct (lcs_len_spec xs ys) as [(l & H1 & H2 & <-) _].
  apply lcs_len_upper; auto with tools.
Qed.

Lemma lcs_len_le_length_l xs ys : lcs_len xs ys <= length xs.
Proof. destruct (lcs_len_spec xs ys) as [(l & H1 & _ & <-) _]. by apply sublist_length. Qed.

Lemma lcs_len_le_length_r xs ys : lcs_len xs ys <= length ys.
Proof. destruct (lcs_len_spec xs ys) as [(l & _ & H2 & <-) _]. by apply sublist_length. Qed.

Lemma lcs_len_refl xs : lcs_len xs xs = length xs.
Proof.
  apply Nat.le_antisymm; [apply lcs_len_le_length_l|]. by apply lcs_len_upper.
Qed.

(** ** Counting the changes of a script *)

Lemma n_changes_eq es :
  n_changes es + 2 * length (kept es) = length (src es) + length (dst es).
Proof. unfold n_changes. rewrite length_src, length_dst. lia. Qed.

(** The changes of any script that turns [xs] into [ys] are at least
    those of an LCS alignment. *)
Lemma n_changes_lower es :
  length (src es) + length (dst es) <= n_changes es + 2 * lcs_len (src es) (dst es).
Proof.
  pose proof (n_changes_eq es).
  pose proof (lcs_len_upper (src es) (dst es) (kept es) (kept_sublist_src es) (kept_sublist_dst es)).
  lia.
Qed.

Lemma n_changes_bt xs ys :
  n_changes (bt xs ys) + 2 * lcs_len xs ys = length xs + length ys.
Proof. rewrite <- kept_bt, n_changes_eq, src_bt, dst_bt. done. Qed.

(** ** Ordering: an insertion is never listed right before a deletion *)

(** [true] when an [Ins] is immediately followed by a [Del]. *)
Fixpoint ins_then_del es : bool :=
  match es with
  | [] => false
  | Ins _ :: ((Del _ :: _) as es') => true
  | _ :: es' => ins_then_del es'
  end.

Lemma ins_then_del_map_ins ys : ins_then_del (map Ins ys) = false.
Proof. induction ys as [|y [|y' ys] IH]; done. Qed.

Lemma bt_head_del x xs ys x' r :
  bt (x :: xs) ys = Del x' :: r -> lcs_len (x :: xs) ys <= lcs_len xs ys.
Proof.
  destruct ys as [|y ys]; [rewrite lcs_len_nil_r; lia|].
  rewrite bt_cons, lcs_len_cons. repeat case_decide; intros [=]. lia.
Qed.

Lemma ins_then_del_bt xs ys : ins_then_del (bt xs ys) = false.
Proof.
  revert ys. induction xs as [|x xs IHx]; intros ys; [apply ins_then_del_map_ins|].
  induction ys as [|y ys IHy]; [rewrite bt_cons_nil; apply IHx|].
  rewrite bt_cons. case_decide; [apply IHx|].
  case_decide as Hle; [apply IHx|].
  destruct (bt (x :: xs) ys) as [|[x'|x'|x'] r] eqn:E; [done|done| |done].
  exfalso. apply Hle. pose proof (bt_head_del _ _ _ _ _ E).
  pose proof (lcs_len_mono_r xs y ys). lia.
Qed.

Lemma ins_then_del_cons e es : ins_then_del es = true -> ins_then_del (e :: es) = true.
Proof. destruct e, es as [|[] es]; simpl; congruence. Qed.

Lemma ins_then_del_middle es1 x y es2 : ins_then_del (es1 ++ Ins y :: Del x :: es2) = true.
Proof. induction es1 as [|e es1 IH]; [done|]. by apply ins_then_del_cons. Qed.

(** ** Scripts of identical or empty documents *)

Lemma bt_refl xs : bt xs xs = map Keep xs.
Proof. induction xs as [|x xs IH]; [done|]. rewrite bt_cons, decide_True by done. by rewrite IH. Qed.

Lemma n_ins_map_ins ys : n_ins (map Ins ys) = length ys.
Proof. induction ys; simpl; lia. Qed.
Lemma n_del_map_ins ys : n_del (map Ins ys) = 0.
Proof. by induction ys. Qed.
Lemma n_del_map_del xs : n_del (map Del xs) = length xs.
Proof. induction xs; simpl; lia. Qed.
Lemma n_ins_map_del xs : n_ins (map Del xs) = 0.
Proof. by induction xs. Qed.

Lemma src_nil_ins es : src es = [] -> es = map Ins (dst es).
Proof. induction es as [|[] es IH]; simpl; intros H; try discriminate; [done|]. by rewrite <- IH. Qed.

Lemma dst_nil_del es : dst es = [] -> es = map Del (src es).
Proof. induction es as [|[] es IH]; simpl; intros H; try discriminate; [done|]. by rewrite <- IH. Qed.

End Lcs.

(** ** The contract of a line diff *)

(** What the text diff view needs of a diff: it reads the left document,
    writes the right one, and keeps a longest common subsequence. *)
Class LineDiff {A} `{EqDecision A} (diff : list A -> list A -> list (edit A)) : Prop := {
  diff_src a b : src (diff a b) = a;
  diff_dst a b : dst (diff a b) = b;
  diff_kept a b : length (kept (diff a b)) = lcs_len a b
}.

Section Client.
Context {A : Type} `{EqDecision A} (diff : list A -> list A -> list (edit A)) `{!LineDiff diff}.

Lemma diff_n_del a b : n_del (diff a b) = length a - lcs_len a b.
Proof. pose proof (length_src (diff a b)). rewrite diff_src, diff_kept in *. lia. Qed.

Lemma diff_n_ins a b : n_ins (diff a b) = length b - lcs_len a b.
Proof. pose proof (length_dst (diff a b)). rewrite diff_dst, diff_kept in *. lia. Qed.

Lemma diff_minimal a b es :
  src es = a -> dst es = b -> n_changes (diff a b) <= n_changes es.
Proof.
  intros <- <-. pose proof (n_changes_lower es). pose proof (n_changes_eq (diff (src es) (dst es))).
  rewrite diff_src, diff_dst, diff_kept in *. lia.
Qed.

Lemma diff_identical a : n_changes (diff a a) = 0.
Proof. unfold n_changes. rewrite diff_n_del, diff_n_ins, lcs_len_refl. lia. Qed.
End Client.

#[export] Instance display_diff_LineDiff {A} `{EqDecision A} : LineDiff (@display_diff A _).
Proof.
  split; intros a b; unfold display_diff.
  - by rewrite src_rev, src_bt, rev_involutive.
  - by rewrite dst_rev, dst_bt, rev_involutive.
  - by rewrite kept_rev, length_rev, kept_bt, lcs_len_rev.
Qed.

End Lcs.
