(* ===== verification/DiffEngine.v ===== *)
(** * DiffEngine: the text diff view's [computeDiff]

    The engine of spec section 4.1.  Both inputs are split into lines
    ([Lines.splitLines]); the DP table [lcs_table] of size
    [(m + 1) x (n + 1)] is built row by row, [table[i][j]] holding the LCS
    length of the prefixes [left[0..i)] and [right[0..j)]; [backtrack] walks
    from [(m, n)] to [(0, 0)], emitting [Equal] on matching lines,
    otherwise moving toward the larger neighbour with ties broken toward
    [Deleted]; the walk is reversed into display order and counted.  Its
    fuel is [m + n], the length of the longest walk.  [computeDiffChecked]
    adds the typed error for inputs that are not strings. *)

From S2P Require Import Prelude Lines Lcs.
Import Lines Lcs.

Module DiffEngine.

(** ** Data *)

Inductive DiffKind := Equal | Inserted | Deleted.

#[export] Instance DiffKind_eq_dec : EqDecision DiffKind.
Proof. solve_decision. Defined.

Record DiffSegment := {
  kind : DiffKind;
  text : string;
  leftIndex : option nat;
  rightIndex : option nat
}.

Record DiffResult := {
  segments : list DiffSegment;
  linesAdded : nat;
  linesRemoved : nat;
  linesUnchanged : nat
}.

(** ** The DP table *)

(** Row [i] after row [i - 1] ([prev]), for the line [x = left[i-1]]:
    [table[i][j] = x === right[j-1] ? table[i-1][j-1] + 1
                                    : max(table[i-1][j], table[i][j-1])]
    for [j = 1 .. n]; [left] is [table[i][j-1]]. *)
Fixpoint fill_row (x : string) (bs : list string) (prev : list nat) (left : nat) : list nat :=
  match bs, prev with
  | y :: bs', diag :: prev' =>
      let v := if x ==? y then S diag else Nat.max (hd 0 prev') left in
      v :: fill_row x bs' prev' v
  | _, _ => []
  end.

(** Rows [1 .. m], each starting with [table[i][0] = 0]. *)
Fixpoint build_rows (a b : list string) (prev : list nat) : list (list nat) :=
  match a with
  | [] => []
  | x :: a' =>
      let row := 0 :: fill_row x b prev 0 in
      row :: build_rows a' b row
  end.

Definition lcs_table (a b : list string) : list (list nat) :=
  let row0 := repeat 0 (length b + 1) in
  row0 :: build_rows a b row0.

(** [table[i][j]]. *)
Definition cell (t : list (list nat)) (i j : nat) : nat := nth j (nth i t []) 0.

(** [doc[i]]. *)
Definition line (doc : list string) (i : nat) : string := nth i doc "".

(** ** Backtracking *)

Definition mkSegment (k : DiffKind) (s : string) (l r : option nat) : DiffSegment :=
  {| kind := k; text := s; leftIndex := l; rightIndex := r |}.

(** From [(i, j)] toward [(0, 0)], segments in the order they are found
    (from the end of the documents). *)
Fixpoint backtrack (fuel : nat) (t : list (list nat)) (a b : list string) (i j : nat)
  : list DiffSegment :=
  match fuel with
  | 0 => []
  | S fuel' =>
      match i, j with
      | 0, 0 => []
      | S i', 0 => mkSegment Deleted (line a i') (Some i') None :: backtrack fuel' t a b i' 0
      | 0, S j' => mkSegment Inserted (line b j') None (Some j') :: backtrack fuel' t a b 0 j'
      | S i', S j' =>
          if line a i' ==? line b j' then
            mkSegment Equal (line a i') (Some i') (Some j') :: backtrack fuel' t a b i' j'
          else if cell t i j' <=? cell t i' j then
            mkSegment Deleted (line a i') (Some i') None :: backtrack fuel' t a b i' j
          else
            mkSegment Inserted (line b j') None (Some j') :: backtrack fuel' t a b i j'
      end
  end.

Definition count_kind (k : DiffKind) (segs : list DiffSegment) : nat :=
  length (filter (fun s => kind s = k) segs).

(** The diff of two documents already split into lines. *)
Definition diffLines (a b : list string) : DiffResult :=
  let t := lcs_table a b in
  let segs := rev (backtrack (length a + length b) t a b (length a) (length b)) in
  {| segments := segs;
     linesAdded := count_kind Inserted segs;
     linesRemoved := count_kind Deleted segs;
     linesUnchanged := count_kind Equal segs |}.

Definition computeDiff (left right : string) : DiffResult :=
  diffLines (splitLines left) (splitLines right).

(** ** Inputs that are not text *)

(** The JavaScript values the presentation layer may pass. *)
Inductive js_value :=
| JsString (s : string) | JsNull | JsUndefined | JsNumber (n : nat) | JsBool (b : bool) | JsObject.

Inductive DiffError := InvalidInputKind.

Definition computeDiffChecked (left right : js_value) : DiffError + DiffResult :=
  match left, right with
  | JsString l, JsString r => inr (computeDiff l r)
  | _, _ => inl InvalidInputKind
  end.

(** ** The table holds the LCS lengths of the prefixes *)

Section Table.
Variables a b : list string.

(** The reference value of [table[i][j]]. *)
Definition lcs_prefix (i j : nat) : nat := lcs_len (rev (take i a)) (rev (take j b)).

Definition table_row (i : nat) : list nat := map (lcs_prefix i) (seq 0 (S (length b))).

Lemma lcs_prefix_0_r i : lcs_prefix i 0 = 0.
Proof. apply lcs_len_nil_r. Qed.

Lemma lcs_prefix_succ i j :
  i < length a -> j < length b ->
  lcs_prefix (S i) (S j) =
  if line a i ==? line b j then S (lcs_prefix i j)
  else Nat.max (lcs_prefix i (S j)) (lcs_prefix (S i) j).
Proof.
  intros Hi Hj. unfold lcs_prefix, line.
  rewrite !(rev_take_S a i ""), !(rev_take_S b j "") by done.
  rewrite lcs_len_cons, string_eqb_decide. by case_bool_decide; case_decide.
Qed.

Lemma fill_row_cons x y bs dg prev left :
  fill_row x (y :: bs) (dg :: prev) left =
  (if x ==? y then S dg else Nat.max (hd 0 prev) left)
    :: fill_row x bs prev (if x ==? y then S dg else Nat.max (hd 0 prev) left).
Proof. reflexivity. Qed.

Lemma fill_row_spec i j d :
  i < length a -> j + d = length b ->
  fill_row (line a i) (drop j b) (map (lcs_prefix i) (seq j (S d))) (lcs_prefix (S i) j)
  = map (lcs_prefix (S i)) (seq (S j) d).
Proof.
  intros Hi. revert j. induction d as [|d IH]; intros j Hj.
  { by rewrite drop_ge by lia. }
  rewrite (drop_S b (line b j) j) by (apply lookup_nth; lia).
  cbn [seq map]. rewrite fill_row_cons. cbn [hd].
  rewrite <- lcs_prefix_succ by lia. f_equal. apply IH. lia.
Qed.

Lemma next_row_spec i :
  i < length a -> 0 :: fill_row (line a i) b (table_row i) 0 = table_row (S i).
Proof.
  intros Hi. unfold table_row. pose proof (fill_row_spec i 0 (length b) Hi ltac:(lia)) as H.
  rewrite drop_0, lcs_prefix_0_r in H. rewrite H. cbn [seq map]. by rewrite lcs_prefix_0_r.
Qed.

Lemma build_rows_spec i :
  i <= length a -> build_rows (drop i a) b (table_row i) = map table_row (seq (S i) (length a - i)).
Proof.
  remember (length a - i) as d eqn:Hd. revert i Hd.
  induction d as [|d IH]; intros i Hd Hi.
  { by rewrite drop_ge by lia. }
  rewrite (drop_S a (line a i) i) by (apply lookup_nth; lia). simpl.
  rewrite next_row_spec by lia. f_equal. apply IH; lia.
Qed.

Lemma table_row_0 : table_row 0 = repeat 0 (length b + 1).
Proof.
  assert (H : forall k n, map (lcs_prefix 0) (seq k n) = repeat 0 n).
  { intros k n. revert k. induction n as [|n IH]; intros k; [done|]. simpl. by rewrite IH. }
  unfold table_row. by rewrite H, Nat.add_1_r.
Qed.

Lemma lcs_table_rows : lcs_table a b = map table_row (seq 0 (S (length a))).
Proof.
  unfold lcs_table. rewrite <- table_row_0. simpl. f_equal.
  rewrite <- (drop_0 a) at 1. rewrite build_rows_spec by lia. by rewrite Nat.sub_0_r.
Qed.

Lemma cell_lcs_table i j :
  i <= length a -> j <= length b -> cell (lcs_table a b) i j = lcs_prefix i j.
Proof.
  intros Hi Hj. unfold cell. rewrite lcs_table_rows, (nth_map_seq _ _ _ _ _) by lia.
  unfold table_row. rewrite nth_map_seq by lia. done.
Qed.
End Table.

(** ** Segments as edits *)

(** The reference script [es], listed from the end, with the indices a walk
    from [(i, j)] assigns. *)
Fixpoint annotate (i j : nat) (es : list (edit string)) : list DiffSegment :=
  match es with
  | [] => []
  | Keep x :: es' => mkSegment Equal x (Some (pred i)) (Some (pred j)) :: annotate (pred i) (pred j) es'
  | Del x :: es' => mkSegment Deleted x (Some (pred i)) None :: annotate (pred i) j es'
  | Ins y :: es' => mkSegment Inserted y None (Some (pred j)) :: annotate i (pred j) es'
  end.

Definition seg_edit (s : DiffSegment) : edit string :=
  match kind s with
  | Equal => Keep (text s)
  | Deleted => Del (text s)
  | Inserted => Ins (text s)
  end.

(** The lines of the left document ([Equal] and [Deleted]) and of the right
    one ([Equal] and [Inserted]), in order. *)
Definition left_lines (segs : list DiffSegment) : list string :=
  map text (filter (fun s => kind s <> Inserted) segs).

Definition right_lines (segs : list DiffSegment) : list string :=
  map text (filter (fun s => kind s <> Deleted) segs).

Lemma annotate_edits i j es : map seg_edit (annotate i j es) = es.
Proof. revert i j. induction es as [|[] es IH]; intros i j; simpl; by rewrite ?IH. Qed.

Lemma left_lines_src segs : left_lines segs = src (map seg_edit segs).
Proof.
  unfold left_lines. induction segs as [|[[] t l r] segs IH]; [done|..];
    rewrite filter_cons; destruct (decide _) as [Hk|Hk]; simpl in *;
    solve [congruence | by apply Hk | by destruct Hk].
Qed.

Lemma right_lines_dst segs : right_lines segs = dst (map seg_edit segs).
Proof.
  unfold right_lines. induction segs as [|[[] t l r] segs IH]; [done|..];
    rewrite filter_cons; destruct (decide _) as [Hk|Hk]; simpl in *;
    solve [congruence | by apply Hk | by destruct Hk].
Qed.

Lemma count_kind_cons k s segs :
  count_kind k (s :: segs) = (if decide (kind s = k) then 1 else 0) + count_kind k segs.
Proof. unfold count_kind. rewrite filter_cons. by destruct (decide _). Qed.

Lemma count_inserted segs : count_kind Inserted segs = n_ins (map seg_edit segs).
Proof. induction segs as [|[[] t l r] segs IH]; [done|..]; rewrite count_kind_cons; simpl; lia. Qed.

Lemma count_deleted segs : count_kind Deleted segs = n_del (map seg_edit segs).
Proof. induction segs as [|[[] t l r] segs IH]; [done|..]; rewrite count_kind_cons; simpl; lia. Qed.

Lemma count_equal segs : count_kind Equal segs = length (kept (map seg_edit segs)).
Proof. induction segs as [|[[] t l r] segs IH]; [done|..]; rewrite count_kind_cons; simpl; lia. Qed.

(** ** Fuel *)

(** Every step of the walk lowers [i + j] by one, so any fuel of at least
    [i + j] gives the same walk. *)
Lemma backtrack_fuel t a b f1 f2 i j :
  i + j <= f1 -> i + j <= f2 -> backtrack f1 t a b i j = backtrack f2 t a b i j.
Proof.
  revert f2 i j. induction f1 as [|f1 IH]; intros f2 i j H1 H2.
  { assert (i = 0) as -> by lia. assert (j = 0) as -> by lia. by destruct f2. }
  destruct i as [|i], j as [|j]; [by destruct f2|..];
    (destruct f2 as [|f2]; [lia|]); cbn [backtrack];
    repeat (case_match; try (f_equal; apply IH; lia)); f_equal; apply IH; lia.
Qed.

(** ** The walk over the table is the reference backtracking *)

Section Backtrack.
Variables a b : list string.

Ltac tail_step IH :=
  rewrite IH by lia; rewrite ?(rev_take_S a _ ""), ?(rev_take_S b _ "") by lia; reflexivity.

Lemma backtrack_bt fuel i j :
  i + j <= fuel -> i <= length a -> j <= length b ->
  backtrack fuel (lcs_table a b) a b i j = annotate i j (bt (rev (take i a)) (rev (take j b))).
Proof.
  revert i j. induction fuel as [|f IH]; intros i j Hf Hi Hj.
  { assert (i = 0) as -> by lia. by assert (j = 0) as -> by lia. }
  destruct i as [|i], j as [|j]; [done|..]; cbn [backtrack].
  - rewrite (rev_take_S b j "") by lia. simpl. f_equal. tail_step IH.
  - rewrite (rev_take_S a i "") by lia. simpl. f_equal. tail_step IH.
  - rewrite !cell_lcs_table by lia. unfold lcs_prefix.
    rewrite (rev_take_S a i ""), (rev_take_S b j "") by lia.
    rewrite bt_cons, string_eqb_decide. unfold line.
    case_bool_decide; [rewrite decide_True by done|rewrite decide_False by done];
      [simpl; f_equal; tail_step IH|].
    destruct (decide (_ <= _)) as [Hle|Hle].
    + rewrite (proj2 (Nat.leb_le _ _) Hle). simpl. f_equal. tail_step IH.
    + apply Nat.nle_gt in Hle. rewrite (proj2 (Nat.leb_gt _ _) Hle). simpl. f_equal. tail_step IH.
Qed.
End Backtrack.

Lemma diffLines_segments a b :
  segments (diffLines a b) = rev (annotate (length a) (length b) (bt (rev a) (rev b))).
Proof.
  unfold diffLines. cbn [segments]. rewrite backtrack_bt by lia.
  by rewrite !take_ge by lia.
Qed.

Lemma diffLines_edits a b : map seg_edit (segments (diffLines a b)) = display_diff a b.
Proof. by rewrite diffLines_segments, map_rev, annotate_edits. Qed.

Lemma equal_lines_kept segs :
  map text (filter (fun s => kind s = Equal) segs) = kept (map seg_edit segs).
Proof.
  induction segs as [|[[] t l r] segs IH]; [done|..];
    rewrite filter_cons; destruct (decide _) as [Hk|Hk]; simpl in *;
    solve [congruence | by destruct Hk].
Qed.

Lemma segs_all_ins segs ts :
  map seg_edit segs = map Ins ts -> Forall (fun s => kind s = Inserted) segs /\ map text segs = ts.
Proof.
  revert ts. induction segs as [|[[] t l r] segs IH]; intros [|t' ts]; simpl; try discriminate; [done|].
  intros [= -> Hm]. destruct (IH ts Hm). split; [by constructor|congruence].
Qed.

Lemma segs_all_del segs ts :
  map seg_edit segs = map Del ts -> Forall (fun s => kind s = Deleted) segs /\ map text segs = ts.
Proof.
  revert ts. induction segs as [|[[] t l r] segs IH]; intros [|t' ts]; simpl; try discriminate; [done|].
  intros [= -> Hm]. destruct (IH ts Hm). split; [by constructor|congruence].
Qed.

(** What a segment of a walk from [(i, j)] promises: its indices are those
    its kind calls for, and they point at its text. *)
Definition segment_ok (a b : list string) (s : DiffSegment) : Prop :=
  (kind s = Inserted <-> leftIndex s = None) /\ (kind s = Deleted <-> rightIndex s = None) /\
  (forall k, leftIndex s = Some k -> a !! k = Some (text s)) /\
  (forall k, rightIndex s = Some k -> b !! k = Some (text s)).

Lemma rev_take_cons_inv {A} (l : list A) (i : nat) (x : A) (xs : list A) (d : A) :
  rev (take i l) = x :: xs -> i <= length l ->
  exists i', i = S i' /\ x = nth i' l d /\ xs = rev (take i' l).
Proof.
  destruct i as [|i']; [done|]. intros H Hi. rewrite (rev_take_S l i' d) in H by lia.
  injection H as <- <-. eauto.
Qed.

Ltac segment_ok_tac := repeat split; simpl; intros; simplify_eq; try done; apply lookup_nth; lia.

Lemma annotate_ok a b es i j :
  src es = rev (take i a) -> dst es = rev (take j b) -> i <= length a -> j <= length b ->
  Forall (segment_ok a b) (annotate i j es).
Proof.
  revert i j. induction es as [|[x|x|y] es IH]; intros i j Hs Hd Hi Hj; [constructor|..]; simpl in Hs, Hd.
  - destruct (rev_take_cons_inv a i x _ "" (eq_sym Hs) Hi) as (i' & -> & -> & Hs').
    destruct (rev_take_cons_inv b j _ _ "" (eq_sym Hd) Hj) as (j' & -> & Hxy & Hd').
    constructor; [|apply IH; auto; lia].
    repeat split; simpl; intros; simplify_eq; try done; [|rewrite Hxy]; apply lookup_nth; lia.
  - destruct (rev_take_cons_inv a i x _ "" (eq_sym Hs) Hi) as (i' & -> & -> & Hs').
    constructor; [segment_ok_tac|apply IH; auto; lia].
  - destruct (rev_take_cons_inv b j y _ "" (eq_sym Hd) Hj) as (j' & -> & -> & Hd').
    constructor; [segment_ok_tac|apply IH; auto; lia].
Qed.

(** The counts of the result, in terms of the reference script. *)
Lemma linesUnchanged_diffLines a b : linesUnchanged (diffLines a b) = lcs_len a b.
Proof.
  change (linesUnchanged (diffLines a b)) with (count_kind Equal (segments (diffLines a b))).
  by rewrite count_equal, diffLines_edits, diff_kept.
Qed.

Lemma linesRemoved_diffLines a b : linesRemoved (diffLines a b) = n_del (display_diff a b).
Proof.
  change (linesRemoved (diffLines a b)) with (count_kind Deleted (segments (diffLines a b))).
  by rewrite count_deleted, diffLines_edits.
Qed.

Lemma linesAdded_diffLines a b : linesAdded (diffLines a b) = n_ins (display_diff a b).
Proof.
  change (linesAdded (diffLines a b)) with (count_kind Inserted (segments (diffLines a b))).
  by rewrite count_inserted, diffLines_edits.
Qed.

Lemma equal_texts_diffLines a b :
  map text (filter (fun s => kind s = Equal) (segments (diffLines a b))) = kept (display_diff a b).
Proof. by rewrite equal_lines_kept, diffLines_edits. Qed.

Lemma count_kind_total segs :
  count_kind Equal segs + count_kind Inserted segs + count_kind Deleted segs = length segs.
Proof. induction segs as [|[[] t l r] segs IH]; [done|..]; rewrite !count_kind_cons; simpl; lia. Qed.

(** Walking from [(s + k, j)] with a script that consumes [k] left lines,
    the [Equal] and [Deleted] segments carry the left indices
    [s + k - 1], ..., [s]; symmetrically on the right. *)
Lemma annotate_left_indices s j es :
  omap leftIndex (annotate (s + length (src es)) j es) = rev (seq s (length (src es))).
Proof.
  revert j. induction es as [|[x|x|y] es IH]; intros j; cbn [src length]; [done|..].
  1,2: rewrite seq_S, rev_app_distr, Nat.add_succ_r; simpl; by rewrite IH.
  simpl. by rewrite IH.
Qed.

Lemma annotate_right_indices s i es :
  omap rightIndex (annotate i (s + length (dst es)) es) = rev (seq s (length (dst es))).
Proof.
  revert i. induction es as [|[x|x|y] es IH]; intros i; cbn [dst length]; [done|..].
  1,3: rewrite seq_S, rev_app_distr, Nat.add_succ_r; simpl; by rewrite IH.
  simpl. by rewrite IH.
Qed.

(** ** Theorems *)

(** the segments reconstruct both documents: the [Equal] and [Deleted]
    texts, in order, are the lines of the left input, the [Equal] and
    [Inserted] texts those of the right input; joined with line breaks, plus
    the input's final line break, they give the input text back. *)
Theorem computeDiff_reconstructs (l r : string) :
  let segs := segments (computeDiff l r) in
  left_lines segs = splitLines l /\ right_lines segs = splitLines r /\
  String.append (join_lines (left_lines segs)) (if final_newline l then String nl "" else "") = l /\
  String.append (join_lines (right_lines segs)) (if final_newline r then String nl "" else "") = r.
Proof.
  cbv zeta. unfold computeDiff.
  rewrite left_lines_src, right_lines_dst, diffLines_edits, diff_src, diff_dst.
  auto using splitLines_reconstruct.
Qed.

(** the DP table is the LCS recurrence: every cell [table[i][j]] is the
    length of a longest common subsequence of [left[0..i)] and
    [right[0..j)]. *)
Theorem lcs_table_cell_lcs (a b : list string) (i j : nat) :
  i <= length a -> j <= length b ->
  (exists c, c `sublist_of` take i a /\ c `sublist_of` take j b /\
             length c = cell (lcs_table a b) i j) /\
  (forall c, c `sublist_of` take i a -> c `sublist_of` take j b ->
             length c <= cell (lcs_table a b) i j).
Proof.
  intros Hi Hj. rewrite cell_lcs_table by done. unfold lcs_prefix. rewrite lcs_len_rev.
  apply lcs_len_spec.
Qed.

Lemma lcs_table_cell_lcs_witness :
  2 <= length ["a"; "b"; "c"] /\ 2 <= length ["b"; "c"] /\
  cell (lcs_table ["a"; "b"; "c"] ["b"; "c"]) 2 2 = 1.
Proof.
  split; [simpl; lia|split; [simpl; lia|]].
  pose proof (lcs_table_cell_lcs ["a"; "b"; "c"] ["b"; "c"] 2 2 ltac:(simpl; lia) ltac:(simpl; lia)).
  vm_compute. reflexivity.
Defined.

(** the engine implements the abstract contract of a line diff
    ([LineDiff]): it reads the left lines, writes the right lines and keeps
    a longest common subsequence. *)
Theorem diffLines_LineDiff : LineDiff (fun a b => map seg_edit (segments (diffLines a b))).
Proof.
  split; intros a b; rewrite diffLines_edits; [apply diff_src|apply diff_dst|apply diff_kept].
Qed.

(** the [Equal] segments are a longest common subsequence: their texts
    are a common subsequence of both line lists, as long as
    [linesUnchanged], and no common subsequence is longer. *)
Theorem computeDiff_unchanged_lcs (l r : string) :
  let res := computeDiff l r in
  let common := map text (filter (fun s => kind s = Equal) (segments res)) in
  common `sublist_of` splitLines l /\ common `sublist_of` splitLines r /\
  length common = linesUnchanged res /\
  (forall c, c `sublist_of` splitLines l -> c `sublist_of` splitLines r ->
             length c <= linesUnchanged res).
Proof.
  cbv zeta. unfold computeDiff.
  rewrite equal_texts_diffLines, linesUnchanged_diffLines, diff_kept.
  set (a := splitLines l). set (b := splitLines r).
  pose proof (kept_sublist_src (display_diff a b)). pose proof (kept_sublist_dst (display_diff a b)).
  rewrite diff_src in *. rewrite diff_dst in *.
  split; [done|split; [done|split; [done|apply lcs_len_upper]]].
Qed.

(** the counts are those of an LCS alignment: with [U] unchanged lines,
    [m - U] are removed and [n - U] added. *)
Theorem computeDiff_counts (l r : string) :
  let res := computeDiff l r in
  linesUnchanged res = lcs_len (splitLines l) (splitLines r) /\
  linesRemoved res = length (splitLines l) - linesUnchanged res /\
  linesAdded res = length (splitLines r) - linesUnchanged res.
Proof.
  cbv zeta. unfold computeDiff.
  rewrite linesUnchanged_diffLines, linesRemoved_diffLines, linesAdded_diffLines.
  split; [done|split; [apply diff_n_del|apply diff_n_ins]]; apply _.
Qed.

(** the diff is minimal: no edit script that turns the left lines into
    the right lines changes fewer lines. *)
Theorem computeDiff_minimal (l r : string) (es : list (edit string)) :
  src es = splitLines l -> dst es = splitLines r ->
  linesAdded (computeDiff l r) + linesRemoved (computeDiff l r) <= n_changes es.
Proof.
  intros Hs Hd. unfold computeDiff. rewrite linesAdded_diffLines, linesRemoved_diffLines.
  pose proof (diff_minimal display_diff _ _ es Hs Hd). unfold n_changes in *. lia.
Qed.

Lemma computeDiff_minimal_witness :
  src [Del "a"; Ins "b"] = splitLines "a" /\ dst [Del "a"; Ins "b"] = splitLines "b" /\
  linesAdded (computeDiff "a" "b") + linesRemoved (computeDiff "a" "b") <= n_changes [Del "a"; Ins "b"].
Proof.
  split; [reflexivity|split; [reflexivity|]].
  apply computeDiff_minimal; reflexivity.
Defined.

(** Identical inputs: every segment is [Equal] and nothing is added or
    removed. *)
Theorem computeDiff_identical (s : string) :
  Forall (fun seg => kind seg = Equal) (segments (computeDiff s s)) /\
  linesAdded (computeDiff s s) = 0 /\ linesRemoved (computeDiff s s) = 0 /\
  linesUnchanged (computeDiff s s) = length (splitLines s).
Proof.
  unfold computeDiff. set (a := splitLines s).
  rewrite linesAdded_diffLines, linesRemoved_diffLines, linesUnchanged_diffLines, lcs_len_refl.
  unfold display_diff. rewrite bt_refl, n_ins_rev, n_del_rev, diffLines_segments, bt_refl.
  split; [|split; [by induction (rev a)|split; [by induction (rev a)|done]]].
  apply Forall_rev. generalize (length a). generalize (rev a) as xs.
  induction xs as [|x xs IH]; intros k; simpl; constructor; auto.
Qed.

(** An empty left input: every line of the right input is [Inserted], in
    order; and symmetrically for an empty right input. *)
Theorem computeDiff_empty_left (r : string) :
  Forall (fun seg => kind seg = Inserted) (segments (computeDiff "" r)) /\
  map text (segments (computeDiff "" r)) = splitLines r /\
  linesAdded (computeDiff "" r) = length (splitLines r) /\
  linesRemoved (computeDiff "" r) = 0 /\ linesUnchanged (computeDiff "" r) = 0.
Proof.
  unfold computeDiff. change (splitLines "") with (@nil string).
  pose proof (diffLines_edits [] (splitLines r)) as He.
  rewrite (src_nil_ins (display_diff [] (splitLines r))), diff_dst in He by apply diff_src.
  destruct (segs_all_ins _ _ He) as [Hk Ht].
  rewrite linesAdded_diffLines, linesRemoved_diffLines, linesUnchanged_diffLines.
  rewrite (src_nil_ins (display_diff [] (splitLines r))), diff_dst by apply diff_src.
  by rewrite n_ins_map_ins, n_del_map_ins.
Qed.

Theorem computeDiff_empty_right (l : string) :
  Forall (fun seg => kind seg = Deleted) (segments (computeDiff l "")) /\
  map text (segments (computeDiff l "")) = splitLines l /\
  linesRemoved (computeDiff l "") = length (splitLines l) /\
  linesAdded (computeDiff l "") = 0 /\ linesUnchanged (computeDiff l "") = 0.
Proof.
  unfold computeDiff. change (splitLines "") with (@nil string).
  pose proof (diffLines_edits (splitLines l) []) as He.
  rewrite (dst_nil_del (display_diff (splitLines l) [])), diff_src in He by apply diff_dst.
  destruct (segs_all_del _ _ He) as [Hk Ht].
  rewrite linesAdded_diffLines, linesRemoved_diffLines, linesUnchanged_diffLines, lcs_len_nil_r.
  rewrite (dst_nil_del (display_diff (splitLines l) [])), diff_src by apply diff_dst.
  by rewrite n_del_map_del, n_ins_map_del.
Qed.

(** Every segment carries the indices its kind calls for, and they point at
    its text in the documents' lines. *)
Theorem diffLines_indices (a b : list string) :
  Forall (segment_ok a b) (segments (diffLines a b)).
Proof.
  rewrite diffLines_segments. apply Forall_rev, annotate_ok; [| |done|done].
  - by rewrite take_ge, src_bt.
  - by rewrite take_ge, dst_bt.
Qed.

(** Inside a changed block the display order puts insertions first: a
    [Deleted] segment is never directly followed by an [Inserted] one. *)
Theorem diffLines_no_deleted_then_inserted (a b : list string) pre s1 s2 post :
  segments (diffLines a b) = pre ++ s1 :: s2 :: post ->
  kind s1 = Deleted -> kind s2 <> Inserted.
Proof.
  intros Hsegs Hk1 Hk2. pose proof (diffLines_edits a b) as He.
  assert (E1 : seg_edit s1 = Del (text s1)) by (unfold seg_edit; by rewrite Hk1).
  assert (E2 : seg_edit s2 = Ins (text s2)) by (unfold seg_edit; by rewrite Hk2).
  rewrite Hsegs, map_app in He. cbn [map] in He. rewrite E1, E2 in He. unfold display_diff in He.
  apply (f_equal (@rev _)) in He. rewrite rev_involutive in He.
  pose proof (ins_then_del_bt (rev a) (rev b)) as Hfree.
  rewrite <- He, rev_app_cons2, ins_then_del_middle in Hfree. discriminate.
Qed.

(** [computeDiffChecked] answers [InvalidInputKind] exactly when an input is
    not a string, and the diff otherwise. *)
Theorem computeDiffChecked_spec (v w : js_value) :
  (computeDiffChecked v w = inl InvalidInputKind <->
     ~ (exists l r, v = JsString l /\ w = JsString r)) /\
  (forall l r, v = JsString l -> w = JsString r -> computeDiffChecked v w = inr (computeDiff l r)).
Proof.
  split; [|by intros l r -> ->].
  destruct v, w; simpl; split; intros H; try done;
    try (intros (l' & r' & H1 & H2); discriminate).
  exfalso. apply H. eauto.
Qed.

(** A final line break is invisible: a non-empty text that does not end
    with one compares equal to itself with one appended. *)
Theorem computeDiff_final_newline_invisible (l : string) :
  l <> "" -> final_newline l = false ->
  linesAdded (computeDiff l (String.append l (String nl ""))) = 0 /\
  linesRemoved (computeDiff l (String.append l (String nl ""))) = 0.
Proof.
  intros Hl Hf. unfold computeDiff. rewrite splitLines_snoc_nl by done.
  rewrite linesAdded_diffLines, linesRemoved_diffLines.
  unfold display_diff. rewrite bt_refl, n_ins_rev, n_del_rev.
  split; by induction (rev (splitLines l)).
Qed.

(** ** The worked examples of the spec *)

Example computeDiff_example_abc :
  computeDiff (join_lines ["a"; "b"; "c"]) (join_lines ["a"; "c"]) =
  {| segments := [mkSegment Equal "a" (Some 0) (Some 0);
                  mkSegment Deleted "b" (Some 1) None;
                  mkSegment Equal "c" (Some 2) (Some 1)];
     linesAdded := 0; linesRemoved := 1; linesUnchanged := 2 |}.
Proof. vm_compute. reflexivity. Qed.

Example computeDiff_example_insert_all :
  linesAdded (computeDiff "" (unlines ["x"; "y"])) = 2 /\
  map kind (segments (computeDiff "" (unlines ["x"; "y"]))) = [Inserted; Inserted].
Proof. vm_compute. split; reflexivity. Qed.

Example computeDiff_example_empty :
  computeDiff "" "" = {| segments := []; linesAdded := 0; linesRemoved := 0; linesUnchanged := 0 |}.
Proof. reflexivity. Qed.

(** The left indices of the segments, in display order, are [0 .. m-1] and
    the right indices [0 .. n-1]: every line of each document is shown once,
    in document order. *)
Theorem diffLines_index_order (a b : list string) :
  omap leftIndex (segments (diffLines a b)) = seq 0 (length a) /\
  omap rightIndex (segments (diffLines a b)) = seq 0 (length b).
Proof.
  pose proof (annotate_left_indices 0 (length b) (bt (rev a) (rev b))) as Hl.
  pose proof (annotate_right_indices 0 (length a) (bt (rev a) (rev b))) as Hr.
  rewrite src_bt, length_rev in Hl. rewrite dst_bt, length_rev in Hr. cbn [Nat.add] in Hl, Hr.
  by rewrite diffLines_segments, !omap_rev, Hl, Hr, !rev_involutive.
Qed.

(** The walk stops at [(0, 0)] after [m + n - L] steps, one per segment, for
    the LCS length [L]; the fuel [m + n] is enough and any larger fuel gives
    the same segments. *)
Theorem diffLines_walk (a b : list string) (f : nat) :
  length a + length b <= f ->
  rev (backtrack f (lcs_table a b) a b (length a) (length b)) = segments (diffLines a b) /\
  length (segments (diffLines a b)) = length a + length b - lcs_len a b.
Proof.
  intros Hf. split.
  - unfold diffLines. cbn [segments]. f_equal. apply backtrack_fuel; lia.
  - rewrite <- count_kind_total.
    change (count_kind Equal (segments (diffLines a b))) with (linesUnchanged (diffLines a b)).
    change (count_kind Inserted (segments (diffLines a b))) with (linesAdded (diffLines a b)).
    change (count_kind Deleted (segments (diffLines a b))) with (linesRemoved (diffLines a b)).
    rewrite linesUnchanged_diffLines, linesRemoved_diffLines, linesAdded_diffLines,
      (diff_n_del display_diff), (diff_n_ins display_diff).
    pose proof (lcs_len_le_length_l a b). pose proof (lcs_len_le_length_r a b). lia.
Qed.

(** The table has [m + 1] rows of [n + 1] cells, and [table[i][j]] never
    exceeds [i] nor [j]. *)
Theorem lcs_table_shape (a b : list string) :
  length (lcs_table a b) = S (length a) /\
  Forall (fun row => length row = S (length b)) (lcs_table a b) /\
  (forall i j, i <= length a -> j <= length b -> cell (lcs_table a b) i j <= Nat.min i j).
Proof.
  rewrite lcs_table_rows. split; [by rewrite length_map, length_seq|split].
  - apply Forall_map, Forall_forall. intros i _. unfold table_row. by rewrite length_map, length_seq.
  - intros i j Hi Hj. rewrite <- lcs_table_rows, cell_lcs_table by done. unfold lcs_prefix.
    pose proof (lcs_len_le_length_l (rev (take i a)) (rev (take j b))).
    pose proof (lcs_len_le_length_r (rev (take i a)) (rev (take j b))).
    rewrite !length_rev, !length_take in *. lia.
Qed.

(** A carriage return stays in its line: a CRLF text and the same LF text
    share only the last line. *)
Example computeDiff_example_crlf :
  let r := computeDiff (String.append "a" (String "013" (String "010" "b")))
                       (String.append "a" (String "010" "b")) in
  (linesAdded r, linesRemoved r, linesUnchanged r) = (1, 1, 1).
Proof. vm_compute. reflexivity. Qed.

End DiffEngine.
