(* ===== verification/Page.v ===== *)
(** * Page: the text diff page of the running application

    The composition of [main.js] with the view it routes to at [/text-diff].
    A [page] is the application's state ([Router.app_state]) with the state
    of the [TextDiff] view instance, which exists exactly while
    [<router-view>] shows [TextDiff]: vue-router keeps the instance across
    navigations that render the same record and creates a fresh one (empty
    text areas, nothing shown) when the view appears again.  The view holds
    its two text areas and what it shows; editing a text area or pressing the
    compare control runs [computeDiffChecked] on the text areas' strings
    (spec, sections 5 and 6).  [start l] is the page right after [main.js]
    ran at the browser location [l], and [run_page] plays a sequence of user
    events on it. *)

From S2P Require Import Prelude Router Lines Lcs DiffEngine.
Import Router Lines Lcs DiffEngine.

Module Page.

(** ** The view and the page *)

Record text_diff_view := {
  leftText : string;
  rightText : string;
  shown : option (DiffError + DiffResult)
}.

Definition fresh_view : text_diff_view := {| leftText := ""; rightText := ""; shown := None |}.

(** The compare control: the engine on the two text areas' values. *)
Definition compare (v : text_diff_view) : text_diff_view :=
  {| leftText := leftText v; rightText := rightText v;
     shown := Some (computeDiffChecked (JsString (leftText v)) (JsString (rightText v))) |}.

(** An edit of a text area, which triggers a comparison. *)
Definition input_left (s : string) (v : text_diff_view) : text_diff_view :=
  compare {| leftText := s; rightText := rightText v; shown := shown v |}.

Definition input_right (s : string) (v : text_diff_view) : text_diff_view :=
  compare {| leftText := leftText v; rightText := s; shown := shown v |}.

Record page := { page_app : app_state; page_view : option text_diff_view }.

(** The view instance after [<router-view>] went from showing [before] to
    showing [after]. *)
Definition view_after (before after : option view_component) (v : option text_diff_view)
  : option text_diff_view :=
  if bool_decide (after = Some TextDiff) then
    if bool_decide (before = Some TextDiff) then v else Some fresh_view
  else None.

Definition init_page (st : app_state) : page :=
  {| page_app := st; page_view := view_after None (rendered_view st) None |}.

Inductive ui_event :=
| Nav (e : app_event)
| InputLeft (s : string)
| InputRight (s : string)
| CompareClick.

Definition page_step (p : page) (e : ui_event) : page :=
  match e with
  | Nav ev =>
      let st' := app_event_step ev (page_app p) in
      {| page_app := st';
         page_view := view_after (rendered_view (page_app p)) (rendered_view st') (page_view p) |}
  | InputLeft s => {| page_app := page_app p; page_view := input_left s <$> page_view p |}
  | InputRight s => {| page_app := page_app p; page_view := input_right s <$> page_view p |}
  | CompareClick => {| page_app := page_app p; page_view := compare <$> page_view p |}
  end.

Definition run_page (p : page) (evs : list ui_event) : page := fold_left page_step evs p.

(** The page right after [main.js] ran at location [l]. *)
Definition start (l : browser_location) : page := init_page (main_js l).

(** ** Invariant *)

(** The view exists exactly while [TextDiff] is shown, the application
    invariant holds, and what the view shows is the diff of its text
    areas. *)
Definition page_inv (p : page) : Prop :=
  app_inv (page_app p) /\
  (is_Some (page_view p) <-> rendered_view (page_app p) = Some TextDiff) /\
  (forall v, page_view p = Some v ->
     shown v = None \/ shown v = Some (inr (computeDiff (leftText v) (rightText v)))).

(** ** Lemmas *)

Lemma view_after_is_Some before after v :
  (before = Some TextDiff -> is_Some v) ->
  is_Some (view_after before after v) <-> after = Some TextDiff.
Proof.
  intros Hv. unfold view_after. case_bool_decide as Ha; [case_bool_decide as Hb|].
  - split; [done|intros _; by apply Hv].
  - split; [done|intros _; by eexists].
  - split; [by intros []|done].
Qed.

Lemma view_after_ok before after v w :
  (forall v', v = Some v' -> shown v' = None \/ shown v' = Some (inr (computeDiff (leftText v') (rightText v')))) ->
  view_after before after v = Some w ->
  shown w = None \/ shown w = Some (inr (computeDiff (leftText w) (rightText w))).
Proof.
  intros Hv. unfold view_after. case_bool_decide as Ha; [case_bool_decide as Hb|]; intros Hw.
  - by apply Hv.
  - injection Hw as <-. by left.
  - done.
Qed.

(** An event handled by the view keeps the invariant when the handler
    leaves the view showing the diff of its text areas. *)
Lemma page_map_view_inv (p : page) (f : text_diff_view -> text_diff_view) :
  page_inv p ->
  (forall v, shown (f v) = Some (inr (computeDiff (leftText (f v)) (rightText (f v))))) ->
  page_inv {| page_app := page_app p; page_view := f <$> page_view p |}.
Proof.
  intros (Happ & Hex & Hok) Hf. split; [done|split]; simpl.
  - rewrite <- Hex. destruct (page_view p); split; intros [x Hx]; try discriminate; by eexists.
  - intros w Hw. destruct (page_view p) as [v|]; [|discriminate].
    injection Hw as <-. right. apply Hf.
Qed.

Lemma page_step_inv (p : page) (e : ui_event) : page_inv p -> page_inv (page_step p e).
Proof.
  intros Hp. destruct e as [ev|s|s|];
    [|apply page_map_view_inv; [done|intros v; reflexivity]..].
  destruct Hp as (Happ & Hex & Hok). split; [by apply app_event_step_inv|split].
  - exact (view_after_is_Some _ _ _ (proj2 Hex)).
  - intros w Hw. exact (view_after_ok _ _ _ _ Hok Hw).
Qed.

Lemma run_page_inv (p : page) (evs : list ui_event) : page_inv p -> page_inv (run_page p evs).
Proof.
  revert p. induction evs as [|e evs IH]; intros p Hp; [done|]. simpl.
  apply IH, page_step_inv, Hp.
Qed.

Lemma start_inv (l : browser_location) : page_inv (start l).
Proof.
  split; [apply main_js_inv|split].
  - apply view_after_is_Some. discriminate.
  - intros w Hw. eapply view_after_ok; [|exact Hw]. intros ? ?; discriminate.
Qed.

(** What a view of a reachable page shows is the engine's result on its
    text areas. *)
Lemma shown_computeDiff (l : browser_location) (evs : list ui_event) v res :
  page_view (run_page (start l) evs) = Some v -> shown v = Some (inr res) ->
  res = computeDiff (leftText v) (rightText v).
Proof.
  intros Hv Hs. destruct (run_page_inv (start l) evs (start_inv l)) as (_ & _ & Hok).
  destruct (Hok v Hv) as [H|H]; rewrite Hs in H; congruence.
Qed.

Lemma run_page_app_snoc (p : page) (evs : list ui_event) (e : ui_event) :
  run_page p (evs ++ [e]) = page_step (run_page p evs) e.
Proof. unfold run_page. by rewrite fold_left_app. Qed.

(** A browser opened at [/text-diff], and a session that types two texts. *)
Definition text_diff_location : browser_location :=
  {| pathname := "/text-diff"; search := ""; hash := "" |}.

Definition sample_session : list ui_event :=
  [InputLeft (join_lines ["a"; "b"; "c"]); InputRight (join_lines ["a"; "c"])].

(** ** Theorems: what the text diff page shows *)

(** C1: the diff the page shows reconstructs both text areas: the [Equal]
    and [Deleted] texts are the left text's lines, the [Equal] and
    [Inserted] texts the right text's lines, and joined with line breaks
    (plus the text's final line break) they give each text back. *)
Theorem page_diff_reconstructs (l : browser_location) (evs : list ui_event) v res :
  page_view (run_page (start l) evs) = Some v -> shown v = Some (inr res) ->
  left_lines (segments res) = splitLines (leftText v) /\
  right_lines (segments res) = splitLines (rightText v) /\
  String.append (join_lines (left_lines (segments res)))
    (if final_newline (leftText v) then String nl "" else "") = leftText v /\
  String.append (join_lines (right_lines (segments res)))
    (if final_newline (rightText v) then String nl "" else "") = rightText v.
Proof. intros Hv Hs. rewrite (shown_computeDiff l evs v res Hv Hs). apply computeDiff_reconstructs. Qed.

Lemma page_diff_reconstructs_witness :
  exists v res, page_view (run_page (start text_diff_location) sample_session) = Some v /\
    shown v = Some (inr res) /\
    left_lines (segments res) = splitLines (leftText v) /\
    right_lines (segments res) = splitLines (rightText v) /\
    String.append (join_lines (left_lines (segments res)))
      (if final_newline (leftText v) then String nl "" else "") = leftText v /\
    String.append (join_lines (right_lines (segments res)))
      (if final_newline (rightText v) then String nl "" else "") = rightText v.
Proof.
  eexists _, _. split; [reflexivity|]. split; [reflexivity|].
  apply (page_diff_reconstructs text_diff_location sample_session); reflexivity.
Defined.

(** C2: the unchanged lines the page shows are a longest common
    subsequence of the two texts' lines: a common subsequence as long as
    [linesUnchanged], and no common subsequence is longer. *)
Theorem page_diff_lcs (l : browser_location) (evs : list ui_event) v res :
  page_view (run_page (start l) evs) = Some v -> shown v = Some (inr res) ->
  let common := map text (filter (fun s => kind s = Equal) (segments res)) in
  common `sublist_of` splitLines (leftText v) /\ common `sublist_of` splitLines (rightText v) /\
  length common = linesUnchanged res /\
  (forall c, c `sublist_of` splitLines (leftText v) -> c `sublist_of` splitLines (rightText v) ->
             length c <= linesUnchanged res).
Proof. intros Hv Hs. rewrite (shown_computeDiff l evs v res Hv Hs). apply computeDiff_unchanged_lcs. Qed.

Lemma page_diff_lcs_witness :
  exists v res, page_view (run_page (start text_diff_location) sample_session) = Some v /\
    shown v = Some (inr res) /\ let common := map text (filter (fun s => kind s = Equal) (segments res)) in common `sublist_of` splitLines (leftText v) /\ common `sublist_of` splitLines (rightText v) /\ length common = linesUnchanged res /\ (forall c, c `sublist_of` splitLines (leftText v) -> c `sublist_of` splitLines (rightText v) -> length c <= linesUnchanged res).
Proof.
  eexists _, _. split; [reflexivity|]. split; [reflexivity|].
  apply (page_diff_lcs text_diff_location sample_session); reflexivity.
Defined.

(** C3: the counts the page shows are those of an LCS alignment of the
    texts' lines: [linesUnchanged] is the LCS length [U], [linesRemoved] is
    [m - U] and [linesAdded] is [n - U]. *)
Theorem page_diff_counts (l : browser_location) (evs : list ui_event) v res :
  page_view (run_page (start l) evs) = Some v -> shown v = Some (inr res) ->
  linesUnchanged res = lcs_len (splitLines (leftText v)) (splitLines (rightText v)) /\
  linesRemoved res = length (splitLines (leftText v)) - linesUnchanged res /\
  linesAdded res = length (splitLines (rightText v)) - linesUnchanged res.
Proof. intros Hv Hs. rewrite (shown_computeDiff l evs v res Hv Hs). apply computeDiff_counts. Qed.

Lemma page_diff_counts_witness :
  exists v res, page_view (run_page (start text_diff_location) sample_session) = Some v /\
    shown v = Some (inr res) /\ linesUnchanged res = lcs_len (splitLines (leftText v)) (splitLines (rightText v)) /\ linesRemoved res = length (splitLines (leftText v)) - linesUnchanged res /\ linesAdded res = length (splitLines (rightText v)) - linesUnchanged res.
Proof.
  eexists _, _. split; [reflexivity|]. split; [reflexivity|].
  apply (page_diff_counts text_diff_location sample_session); reflexivity.
Defined.

(** C4: the diff the page shows is minimal: no edit script that turns the
    left text's lines into the right text's lines changes fewer lines than
    [linesAdded + linesRemoved]. *)
Theorem page_diff_minimal (l : browser_location) (evs : list ui_event) v res (es : list (edit string)) :
  page_view (run_page (start l) evs) = Some v -> shown v = Some (inr res) ->
  src es = splitLines (leftText v) -> dst es = splitLines (rightText v) ->
  linesAdded res + linesRemoved res <= n_changes es.
Proof.
  intros Hv Hs. rewrite (shown_computeDiff l evs v res Hv Hs). apply computeDiff_minimal.
Qed.

Lemma page_diff_minimal_witness :
  exists v res, page_view (run_page (start text_diff_location) sample_session) = Some v /\
    shown v = Some (inr res) /\
    src [Keep "a"; Del "b"; Keep "c"] = splitLines (leftText v) /\
    dst [Keep "a"; Del "b"; Keep "c"] = splitLines (rightText v) /\
    linesAdded res + linesRemoved res <= n_changes [Keep "a"; Del "b"; Keep "c"].
Proof.
  eexists _, _. split; [reflexivity|]. split; [reflexivity|]. split; [reflexivity|split; [reflexivity|]].
  eapply (page_diff_minimal text_diff_location sample_session); reflexivity.
Defined.

(** C5: the segments the page shows are, read as an edit script, the
    reference LCS backtracking on the texts' lines ([display_diff]): the
    table-driven walk of the engine refines the recursive specification. *)
Theorem page_diff_refines (l : browser_location) (evs : list ui_event) v res :
  page_view (run_page (start l) evs) = Some v -> shown v = Some (inr res) ->
  map seg_edit (segments res) = display_diff (splitLines (leftText v)) (splitLines (rightText v)).
Proof. intros Hv Hs. rewrite (shown_computeDiff l evs v res Hv Hs). apply diffLines_edits. Qed.

Lemma page_diff_refines_witness :
  exists v res, page_view (run_page (start text_diff_location) sample_session) = Some v /\
    shown v = Some (inr res) /\ map seg_edit (segments res) = display_diff (splitLines (leftText v)) (splitLines (rightText v)).
Proof.
  eexists _, _. split; [reflexivity|]. split; [reflexivity|].
  apply (page_diff_refines text_diff_location sample_session); reflexivity.
Defined.

(** C6: in every state the page reaches from [main.js] by navigation and
    edits, the router is installed, started and mounted with the view of the
    current location shown, a diff view exists exactly while [TextDiff] is
    shown, and it shows either nothing or the diff of its text areas. *)
Theorem page_reachable_inv (l : browser_location) (evs : list ui_event) :
  page_inv (run_page (start l) evs).
Proof. apply run_page_inv, start_inv. Qed.

(** C7: every segment the page shows carries the indices its kind calls
    for ([Equal] both, [Deleted] the left one, [Inserted] the right one),
    and each index points at the segment's text in that text's lines. *)
Theorem page_diff_indices (l : browser_location) (evs : list ui_event) v res :
  page_view (run_page (start l) evs) = Some v -> shown v = Some (inr res) ->
  Forall (segment_ok (splitLines (leftText v)) (splitLines (rightText v))) (segments res).
Proof. intros Hv Hs. rewrite (shown_computeDiff l evs v res Hv Hs). apply diffLines_indices. Qed.

Lemma page_diff_indices_witness :
  exists v res, page_view (run_page (start text_diff_location) sample_session) = Some v /\
    shown v = Some (inr res) /\ Forall (segment_ok (splitLines (leftText v)) (splitLines (rightText v))) (segments res).
Proof.
  eexists _, _. split; [reflexivity|]. split; [reflexivity|].
  apply (page_diff_indices text_diff_location sample_session); reflexivity.
Defined.

(** C8: inside a changed block the page lists insertions before deletions:
    a [Deleted] segment is never directly followed by an [Inserted] one. *)
Theorem page_diff_order (l : browser_location) (evs : list ui_event) v res pre s1 s2 post :
  page_view (run_page (start l) evs) = Some v -> shown v = Some (inr res) ->
  segments res = pre ++ s1 :: s2 :: post -> kind s1 = Deleted -> kind s2 <> Inserted.
Proof.
  intros Hv Hs. rewrite (shown_computeDiff l evs v res Hv Hs). apply diffLines_no_deleted_then_inserted.
Qed.

Lemma page_diff_order_witness :
  exists v res, page_view (run_page (start text_diff_location) sample_session) = Some v /\
    shown v = Some (inr res) /\
    segments res = [mkSegment Equal "a" (Some 0) (Some 0)] ++
      mkSegment Deleted "b" (Some 1) None :: mkSegment Equal "c" (Some 2) (Some 1) :: [] /\
    kind (mkSegment Deleted "b" (Some 1) None) = Deleted /\
    kind (mkSegment Equal "c" (Some 2) (Some 1)) <> Inserted.
Proof.
  eexists _, _. split; [reflexivity|]. split; [reflexivity|].
  split; [vm_compute; reflexivity|split; [reflexivity|]].
  eapply (page_diff_order text_diff_location sample_session _ _ [mkSegment Equal "a" (Some 0) (Some 0)]
           (mkSegment Deleted "b" (Some 1) None) _ []); [reflexivity|reflexivity|vm_compute; reflexivity|reflexivity].
Defined.

(** C9: for identical texts the page shows only [Equal] segments and
    counts nothing added or removed. *)
Theorem page_diff_identical (l : browser_location) (evs : list ui_event) v res :
  page_view (run_page (start l) evs) = Some v -> shown v = Some (inr res) ->
  leftText v = rightText v ->
  Forall (fun seg => kind seg = Equal) (segments res) /\
  linesAdded res = 0 /\ linesRemoved res = 0 /\
  linesUnchanged res = length (splitLines (leftText v)).
Proof.
  intros Hv Hs He. rewrite (shown_computeDiff l evs v res Hv Hs), <- He.
  apply computeDiff_identical.
Qed.

Lemma page_diff_identical_witness :
  exists v res, page_view (run_page (start text_diff_location) [InputLeft "a"; InputRight "a"]) = Some v /\
    shown v = Some (inr res) /\ leftText v = rightText v /\
    Forall (fun seg => kind seg = Equal) (segments res) /\
    linesAdded res = 0 /\ linesRemoved res = 0 /\
    linesUnchanged res = length (splitLines (leftText v)).
Proof.
  eexists _, _. split; [reflexivity|]. split; [reflexivity|]. split; [reflexivity|].
  eapply (page_diff_identical text_diff_location [InputLeft "a"; InputRight "a"]); reflexivity.
Defined.

(** C10: with an empty left text the page shows every line of the right
    text, in order, as [Inserted], and counts them all as added. *)
Theorem page_diff_empty_left (l : browser_location) (evs : list ui_event) v res :
  page_view (run_page (start l) evs) = Some v -> shown v = Some (inr res) ->
  leftText v = "" ->
  Forall (fun seg => kind seg = Inserted) (segments res) /\
  map text (segments res) = splitLines (rightText v) /\
  linesAdded res = length (splitLines (rightText v)) /\
  linesRemoved res = 0 /\ linesUnchanged res = 0.
Proof.
  intros Hv Hs He. rewrite (shown_computeDiff l evs v res Hv Hs), He.
  apply computeDiff_empty_left.
Qed.

Lemma page_diff_empty_left_witness :
  exists v res, page_view (run_page (start text_diff_location) [InputRight (unlines ["x"; "y"])]) = Some v /\
    shown v = Some (inr res) /\ leftText v = "" /\
    Forall (fun seg => kind seg = Inserted) (segments res) /\
    map text (segments res) = splitLines (rightText v) /\
    linesAdded res = length (splitLines (rightText v)) /\
    linesRemoved res = 0 /\ linesUnchanged res = 0.
Proof.
  eexists _, _. split; [reflexivity|]. split; [reflexivity|]. split; [reflexivity|].
  eapply (page_diff_empty_left text_diff_location [InputRight (unlines ["x"; "y"])]); reflexivity.
Defined.

(** C11: leaving the diff page for a location that shows another view and
    coming back gives a fresh view: empty text areas and nothing shown. *)
Theorem page_reset_on_return (l : browser_location) (evs : list ui_event) (loc1 loc2 : string) :
  component <$> router_resolve router loc1 <> Some TextDiff ->
  component <$> router_resolve router loc2 = Some TextDiff ->
  page_view (run_page (start l) (evs ++ [Nav (Push loc1); Nav (Push loc2)])) = Some fresh_view.
Proof.
  intros H1 H2. unfold run_page. rewrite fold_left_app. fold (run_page (start l) evs).
  destruct (run_page_inv _ evs (start_inv l)) as (Hinv & _ & _).
  set (p := run_page (start l) evs) in *. simpl.
  rewrite !rendered_after_push by auto with tools.
  unfold view_after. rewrite bool_decide_eq_true_2 by done.
  by rewrite bool_decide_eq_false_2 by done.
Qed.

Lemma page_reset_on_return_witness :
  component <$> router_resolve router "/uuid" <> Some TextDiff /\
  component <$> router_resolve router "/text-diff" = Some TextDiff /\
  page_view (run_page (start text_diff_location)
               (sample_session ++ [Nav (Push "/uuid"); Nav (Push "/text-diff")])) = Some fresh_view.
Proof.
  split; [vm_compute; discriminate|split; [reflexivity|]].
  apply page_reset_on_return; [vm_compute; discriminate|reflexivity].
Defined.

(** C12: the page cannot show a difference in the final line break: a
    non-empty left text without one, compared with the same text followed
    by a line break, shows nothing added and nothing removed. *)
Theorem page_final_newline_invisible (l : browser_location) (evs : list ui_event) v res :
  page_view (run_page (start l) evs) = Some v -> shown v = Some (inr res) ->
  leftText v <> "" -> final_newline (leftText v) = false ->
  rightText v = String.append (leftText v) (String nl "") ->
  linesAdded res = 0 /\ linesRemoved res = 0.
Proof.
  intros Hv Hs Hne Hf Hr. rewrite (shown_computeDiff l evs v res Hv Hs), Hr.
  by apply computeDiff_final_newline_invisible.
Qed.

Lemma page_final_newline_invisible_witness :
  exists v res,
    page_view (run_page (start text_diff_location)
                 [InputLeft "x"; InputRight (String.append "x" (String nl ""))]) = Some v /\
    shown v = Some (inr res) /\ leftText v <> "" /\ final_newline (leftText v) = false /\
    rightText v = String.append (leftText v) (String nl "") /\
    linesAdded res = 0 /\ linesRemoved res = 0.
Proof.
  eexists _, _. split; [reflexivity|]. split; [reflexivity|].
  split; [discriminate|split; [reflexivity|split; [reflexivity|]]].
  eapply (page_final_newline_invisible text_diff_location
            [InputLeft "x"; InputRight (String.append "x" (String nl ""))]);
    first [reflexivity|discriminate].
Defined.

(** C25: the segments the page shows list every line of each text exactly
    once and in order: their left indices are [0 .. m-1] and their right
    indices [0 .. n-1] for [m] and [n] lines, so every index is in bounds. *)
Theorem page_diff_index_order (l : browser_location) (evs : list ui_event) v res :
  page_view (run_page (start l) evs) = Some v -> shown v = Some (inr res) ->
  omap leftIndex (segments res) = seq 0 (length (splitLines (leftText v))) /\
  omap rightIndex (segments res) = seq 0 (length (splitLines (rightText v))).
Proof. intros Hv Hs. rewrite (shown_computeDiff l evs v res Hv Hs). apply diffLines_index_order. Qed.

Lemma page_diff_index_order_witness :
  exists v res, page_view (run_page (start text_diff_location) sample_session) = Some v /\
    shown v = Some (inr res) /\
    omap leftIndex (segments res) = seq 0 (length (splitLines (leftText v))) /\
    omap rightIndex (segments res) = seq 0 (length (splitLines (rightText v))).
Proof.
  eexists _, _. split; [reflexivity|]. split; [reflexivity|].
  apply (page_diff_index_order text_diff_location sample_session); reflexivity.
Defined.

(** C26: the backtracking walk behind the shown diff terminates: started at
    [(m, n)] with the fuel [m + n] or any larger fuel it gives the shown
    segments, after [m + n - L] steps for the LCS length [L]. *)
Theorem page_diff_walk_terminates (l : browser_location) (evs : list ui_event) v res (f : nat) :
  page_view (run_page (start l) evs) = Some v -> shown v = Some (inr res) ->
  let a := splitLines (leftText v) in let b := splitLines (rightText v) in
  length a + length b <= f ->
  rev (backtrack f (lcs_table a b) a b (length a) (length b)) = segments res /\
  length (segments res) = length a + length b - lcs_len a b.
Proof. intros Hv Hs. rewrite (shown_computeDiff l evs v res Hv Hs). apply diffLines_walk. Qed.

Lemma page_diff_walk_terminates_witness :
  exists v res, page_view (run_page (start text_diff_location) sample_session) = Some v /\
    shown v = Some (inr res) /\
    length (splitLines (leftText v)) + length (splitLines (rightText v)) <= 100 /\
    length (segments res) = 3.
Proof.
  eexists _, _. split; [reflexivity|]. split; [reflexivity|]. split; [vm_compute; lia|].
  destruct (page_diff_walk_terminates text_diff_location sample_session _ _ 100 eq_refl eq_refl)
    as [_ ->]; [vm_compute; lia|]. reflexivity.
Defined.


(** C32: typing each text into the other text area swaps the counts the
    page shows: what was added is now removed and conversely, and the
    number of unchanged lines stays the same. *)
Theorem page_swap_counts (l : browser_location) (evs : list ui_event) v res :
  page_view (run_page (start l) evs) = Some v -> shown v = Some (inr res) ->
  exists v' res',
    page_view (run_page (start l) (evs ++ [InputLeft (rightText v); InputRight (leftText v)])) = Some v' /\
    shown v' = Some (inr res') /\ leftText v' = rightText v /\ rightText v' = leftText v /\
    linesAdded res' = linesRemoved res /\ linesRemoved res' = linesAdded res /\
    linesUnchanged res' = linesUnchanged res.
Proof.
  intros Hv Hs. rewrite (shown_computeDiff l evs v res Hv Hs).
  replace (evs ++ [InputLeft (rightText v); InputRight (leftText v)])
    with ((evs ++ [InputLeft (rightText v)]) ++ [InputRight (leftText v)]) by (by rewrite <- app_assoc).
  rewrite !run_page_app_snoc. cbn [page_step page_view]. rewrite Hv.
  eexists _, _. do 4 (split; [reflexivity|]).
  destruct (computeDiff_counts (leftText v) (rightText v)) as (U1 & R1 & A1).
  destruct (computeDiff_counts (rightText v) (leftText v)) as (U2 & R2 & A2).
  rewrite lcs_len_comm in U2. cbn [leftText rightText input_left input_right compare fmap option_fmap option_map].
  lia.
Qed.

Lemma page_swap_counts_witness :
  exists v res, page_view (run_page (start text_diff_location) sample_session) = Some v /\
    shown v = Some (inr res) /\
    exists v' res',
      page_view (run_page (start text_diff_location)
        (sample_session ++ [InputLeft (rightText v); InputRight (leftText v)])) = Some v' /\
      shown v' = Some (inr res') /\ leftText v' = rightText v /\ rightText v' = leftText v /\
      linesAdded res' = linesRemoved res /\ linesRemoved res' = linesAdded res /\
      linesUnchanged res' = linesUnchanged res.
Proof.
  eexists _, _. split; [reflexivity|]. split; [reflexivity|].
  apply (page_swap_counts text_diff_location sample_session); reflexivity.
Defined.

End Page.
