(* ===== verification/Session.v ===== *)
(** * Session: the text diff page in a browser tab with its history

    The composition of [History] and [Page]: the tab's session history
    drives the router, and [<router-view>] keeps or recreates the [TextDiff]
    instance after every navigation ([Page.view_after]).  A [tab_page] is a
    [History.browser] with the state of the [TextDiff] instance; the user
    clicks links, presses Back and Forward, edits the text areas and presses
    the compare control.  Edits are handled by [Page.page_step]. *)

From S2P Require Import Prelude Router History DiffEngine Page.
Import Router History DiffEngine Page.

Module Session.

Record tab_page := { tp_browser : browser; tp_view : option text_diff_view }.

Inductive tab_event :=
| TNav (e : nav_event)
| TInputLeft (s : string)
| TInputRight (s : string)
| TCompare.

(** [main.js] ran in a new tab at [l]. *)
Definition tab_start (l : browser_location) : tab_page :=
  {| tp_browser := boot l; tp_view := page_view (start l) |}.

(** The page of the view handlers: the application and the instance. *)
Definition as_page (p : tab_page) : page :=
  {| page_app := tab (tp_browser p); page_view := tp_view p |}.

Section Tab.

Variable stringify_query : string -> string.
Variable decode_hash : string -> string.

(** An edit or the compare control: the view's handler, the history
    untouched. *)
Definition edit (p : tab_page) (e : ui_event) : tab_page :=
  {| tp_browser := tp_browser p; tp_view := page_view (page_step (as_page p) e) |}.

Definition tab_step (p : tab_page) (e : tab_event) : tab_page :=
  match e with
  | TNav ev =>
      let b' := fst (hist_step stringify_query decode_hash ev (tp_browser p)) in
      {| tp_browser := b';
         tp_view := view_after (rendered_view (tab (tp_browser p))) (rendered_view (tab b')) (tp_view p) |}
  | TInputLeft s => edit p (InputLeft s)
  | TInputRight s => edit p (InputRight s)
  | TCompare => edit p CompareClick
  end.

Definition run_tab (p : tab_page) (evs : list tab_event) : tab_page := fold_left tab_step evs p.

End Tab.

(** The history invariant and the page invariant together. *)
Definition tab_inv (p : tab_page) : Prop := hist_inv (tp_browser p) /\ page_inv (as_page p).

(** The events that may open a history entry. *)
Definition is_link (e : tab_event) : bool :=
  match e with TNav (LinkTo _) => true | _ => false end.

(** ** Lemmas *)

Lemma as_page_edit (p : tab_page) (e : ui_event) :
  (forall ev, e <> Nav ev) -> as_page (edit p e) = page_step (as_page p) e.
Proof. intros He. destruct e as [ev| | |]; [by destruct (He ev)|done..]. Qed.

Lemma nav_page_inv sq dh (p : tab_page) (ev : nav_event) :
  tab_inv p -> page_inv (as_page (tab_step sq dh p (TNav ev))).
Proof.
  intros (Hb & _ & Hex & Hok). cbn [tab_step as_page page_app page_view tp_browser tp_view] in *.
  split; [apply (hist_step_inv sq dh ev _ Hb)|split].
  - exact (view_after_is_Some _ _ _ (proj2 Hex)).
  - intros w Hw. exact (view_after_ok _ _ _ _ Hok Hw).
Qed.

Lemma tab_step_inv sq dh (p : tab_page) (e : tab_event) : tab_inv p -> tab_inv (tab_step sq dh p e).
Proof.
  intros Hp. destruct e as [ev|s|s|]; [split; [apply hist_step_inv, Hp|by apply nav_page_inv]|..].
  all: split; [apply Hp|]; cbn [tab_step]; rewrite as_page_edit by discriminate; apply page_step_inv, Hp.
Qed.

Lemma run_tab_inv sq dh (p : tab_page) (evs : list tab_event) :
  tab_inv p -> tab_inv (run_tab sq dh p evs).
Proof.
  revert p. induction evs as [|e evs IH]; intros p Hp; [done|]. cbn [run_tab fold_left].
  apply IH, tab_step_inv, Hp.
Qed.

Lemma tab_start_inv (l : browser_location) : tab_inv (tab_start l).
Proof. split; [apply boot_inv|apply start_inv]. Qed.

#[export] Hint Resolve tab_step_inv run_tab_inv tab_start_inv : tools.

Lemma view_after_same (c : option view_component) (v : option text_diff_view) :
  c = Some TextDiff -> view_after c c v = v.
Proof. intros ->. unfold view_after. by rewrite bool_decide_eq_true_2. Qed.

(** One event adds at most one history entry, and only a link does. *)
Lemma tab_step_entries sq dh (p : tab_page) (e : tab_event) :
  tab_inv p ->
  length (entries (tp_browser (tab_step sq dh p e))) <=
  length (entries (tp_browser p)) + (if is_link e then 1 else 0).
Proof.
  intros ((Hp & _ & Hinv) & _). destruct e as [ev| | |]; cbn [tab_step edit tp_browser is_link]; [|lia..].
  rewrite hist_step_started by done. destruct ev as [loc| |]; cbn [is_link].
  - destruct (same_route_location _ _ _ _ _); cbn; [lia|]. rewrite length_take_S_snoc by done. lia.
  - destruct (pos (tp_browser p)); cbn; lia.
  - destruct (_ <? _); cbn; lia.
Qed.

(** ** Theorems *)

(** C27: in every state of a tab reached from [main.js] by links, Back,
    Forward, edits and compares, the history and page invariants hold: a
    diff view exists exactly when the current entry resolves to [TextDiff],
    and it shows nothing or the diff of its text areas. *)
Theorem tab_reachable_inv sq dh (l : browser_location) (evs : list tab_event) :
  let p := run_tab sq dh (tab_start l) evs in
  tab_inv p /\
  (is_Some (tp_view p) <->
   component <$> router_resolve router (nth (pos (tp_browser p)) (entries (tp_browser p)) "") = Some TextDiff) /\
  (forall v, tp_view p = Some v ->
     shown v = None \/ shown v = Some (inr (computeDiff (leftText v) (rightText v)))).
Proof.
  cbv zeta. pose proof (run_tab_inv sq dh (tab_start l) evs (tab_start_inv l)) as Hinv.
  split; [done|]. destruct Hinv as (Hb & _ & Hex & Hok).
  split; [|exact Hok]. rewrite <- (hist_inv_rendered _ Hb). exact Hex.
Qed.

(** C28: on the diff page, a link to any location of the diff route (the
    same one, which fails as duplicated, or one with another query or
    hash, which commits) keeps the view instance: its text areas and the
    shown diff are unchanged. *)
Theorem tab_link_within_diff_keeps_view sq dh (p : tab_page) (loc : string) :
  tab_inv p -> rendered_view (tab (tp_browser p)) = Some TextDiff ->
  component <$> router_resolve router loc = Some TextDiff ->
  tp_view (tab_step sq dh p (TNav (LinkTo loc))) = tp_view p.
Proof.
  intros (Hb & _) Hr Hloc. cbn [tab_step tp_view tp_browser].
  rewrite rendered_link, Hloc, Hr by done. by apply view_after_same.
Qed.

Lemma tab_link_within_diff_keeps_view_witness :
  let p := run_tab (fun q => q) (fun h => h) (tab_start text_diff_location) [TInputLeft "a"] in
  tab_inv p /\ rendered_view (tab (tp_browser p)) = Some TextDiff /\
  component <$> router_resolve router "/text-diff?x=1" = Some TextDiff /\
  tp_view (tab_step (fun q => q) (fun h => h) p (TNav (LinkTo "/text-diff?x=1"))) = tp_view p.
Proof.
  intros p. assert (Hp : tab_inv p) by apply run_tab_inv, tab_start_inv.
  assert (Hr : rendered_view (tab (tp_browser p)) = Some TextDiff) by reflexivity.
  assert (Hl : component <$> router_resolve router "/text-diff?x=1" = Some TextDiff) by reflexivity.
  split; [exact Hp|split; [exact Hr|split; [exact Hl|]]].
  exact (tab_link_within_diff_keeps_view _ _ p _ Hp Hr Hl).
Defined.

(** C29: on the diff page, following a link to another view and pressing
    Back shows the diff page again with a fresh view: both text areas are
    empty and nothing is shown, whatever was typed before. *)
Theorem tab_back_resets_view sq dh (p : tab_page) (loc : string) (rr : route_record) :
  tab_inv p -> rendered_view (tab (tp_browser p)) = Some TextDiff ->
  router_resolve router loc = Some rr -> component rr <> TextDiff ->
  let p2 := run_tab sq dh p [TNav (LinkTo loc); TNav Back] in
  rendered_view (tab (tp_browser p2)) = Some TextDiff /\ tp_view p2 = Some fresh_view.
Proof.
  intros (Hb & _) Hr Hloc Hc. pose proof Hb as (_ & _ & Hinv).
  assert (E : same_route_location sq dh router (tab (tp_browser p)) loc = false).
  { apply not_true_iff_false. rewrite same_route_location_spec by done.
    intros (rr' & Hcur & Hrr' & _). rewrite Hloc in Hrr'. injection Hrr' as <-.
    rewrite app_inv_rendered, Hcur in Hr by done. by injection Hr. }
  assert (Hv1 : rendered_view (navigate router loc (tab (tp_browser p))) = Some (component rr))
    by (by rewrite rendered_navigate, Hloc).
  destruct (back_after_push sq dh (tp_browser p) loc Hb) as (Hl2 & _ & (_ & _ & Hinv2)).
  cbv zeta. cbn [run_tab fold_left tab_step tp_browser tp_view].
  rewrite (hist_step_started _ _ _ (tp_browser p)), E by done. cbn [fst history_push tab].
  rewrite Hv1. fold (history_push router loc (tp_browser p)).
  assert (Hv2 : rendered_view (tab (fst (hist_step sq dh Back (history_push router loc (tp_browser p))))) =
                Some TextDiff) by (by rewrite app_inv_rendered, Hl2, <- app_inv_rendered).
  rewrite Hv2. split; [done|]. unfold view_after.
  rewrite bool_decide_eq_true_2, bool_decide_eq_false_2 by congruence.
  done.
Qed.

Lemma tab_back_resets_view_witness :
  let p := run_tab (fun q => q) (fun h => h) (tab_start text_diff_location) [TInputLeft "a"] in
  tab_inv p /\ rendered_view (tab (tp_browser p)) = Some TextDiff /\
  router_resolve router "/ocr" = Some {| path := "/ocr"; component := ImageOCR |} /\
  tp_view (run_tab (fun q => q) (fun h => h) p [TNav (LinkTo "/ocr"); TNav Back]) = Some fresh_view.
Proof.
  intros p. assert (Hp : tab_inv p) by apply run_tab_inv, tab_start_inv.
  assert (Hr : rendered_view (tab (tp_browser p)) = Some TextDiff) by reflexivity.
  assert (Hl : router_resolve router "/ocr" = Some {| path := "/ocr"; component := ImageOCR |}) by reflexivity.
  split; [exact Hp|split; [exact Hr|split; [exact Hl|]]].
  exact (proj2 (tab_back_resets_view _ _ p _ _ Hp Hr Hl ltac:(discriminate))).
Defined.

(** C30: from any state of the tab, one click on a link to [/text-diff]
    shows the diff page with a view instance. *)
Theorem tab_link_reaches_diff sq dh (p : tab_page) :
  tab_inv p ->
  let p1 := tab_step sq dh p (TNav (LinkTo "/text-diff")) in
  rendered_view (tab (tp_browser p1)) = Some TextDiff /\ is_Some (tp_view p1).
Proof.
  intros Hp. pose proof (tab_step_inv sq dh p (TNav (LinkTo "/text-diff")) Hp) as (_ & _ & Hex & _).
  assert (Hr : rendered_view (tab (fst (hist_step sq dh (LinkTo "/text-diff") (tp_browser p)))) = Some TextDiff)
    by (rewrite rendered_link; [reflexivity|apply Hp]).
  cbv zeta. cbn [tab_step tp_browser tp_view as_page page_app page_view] in *.
  split; [done|]. by apply Hex.
Qed.

Lemma tab_link_reaches_diff_witness :
  let p := run_tab (fun q => q) (fun h => h) (tab_start text_diff_location) [TNav (LinkTo "/ocr")] in
  tab_inv p /\
  rendered_view (tab (tp_browser (tab_step (fun q => q) (fun h => h) p (TNav (LinkTo "/text-diff"))))) = Some TextDiff.
Proof.
  intros p. assert (Hp : tab_inv p) by apply run_tab_inv, tab_start_inv.
  split; [exact Hp|exact (proj1 (tab_link_reaches_diff _ _ p Hp))].
Defined.

(** C33: the tab's history stays small: after any sequence of events from
    [main.js], the current index is one of the entries and there are at most
    one entry plus one per link clicked; Back, Forward, edits and compares
    never add an entry. *)
Theorem tab_history_bound sq dh (l : browser_location) (evs : list tab_event) :
  let p := run_tab sq dh (tab_start l) evs in
  pos (tp_browser p) < length (entries (tp_browser p)) /\
  length (entries (tp_browser p)) <= S (length (List.filter is_link evs)).
Proof.
  cbv zeta. split; [apply (run_tab_inv sq dh _ evs (tab_start_inv l))|].
  enough (H : forall p, tab_inv p ->
            length (entries (tp_browser (run_tab sq dh p evs))) <=
            length (entries (tp_browser p)) + length (List.filter is_link evs))
    by exact (H _ (tab_start_inv l)).
  induction evs as [|e evs IH]; intros p Hp; cbn [run_tab fold_left]; [lia|].
  pose proof (tab_step_entries sq dh p e Hp) as Hs.
  specialize (IH _ (tab_step_inv sq dh p e Hp)). unfold run_tab in IH.
  cbn [List.filter]. destruct (is_link e); cbn [length] in *; lia.
Qed.

End Session.
